(** * make_dataset: movie10 preprocessing script

    A shallow embedding of [src/data/make_dataset.py].  Python values are
    modelled as the script uses them: [str] as [string] (its UTF-8
    encoding), [int] as [Z],
    lists as [list], the ordered inner dictionary of a task as an
    association list, the task-indexed dictionary as a [gmap].  Calls that
    raise are modelled in an exception monad that keeps the log of the
    input/output actions performed so far. *)

From Stdlib Require Import ZArith QArith Ascii String DecimalString.
From stdpp Require Import base option list strings gmap sorting.

Local Open Scope string_scope.
Local Open Scope list_scope.
Local Open Scope Z_scope.

(** ** Python exceptions met by the script *)

Inductive exn : Type :=
  | AttributeError      (* [None.group(1)] after a failed [re.search] *)
  | AssertionError      (* [assert n_segments <= len(bold_files)] *)
  | UnboundLocalError   (* a function-local name read before assignment *)
  | NameError           (* a module-level name read before assignment *)
  | IndexError          (* list index out of range, empty image slice *)
  | KeyError            (* missing dictionary key or record field *)
  | TypeError           (* [concat_imgs] of no image *)
  | OSError             (* a file that cannot be read or written *)
  | ValueError          (* [int] of a string of more than 4300 digits *)
  | NotModelled.        (* no exception of Python: a search pattern outside
                           the regular expressions modelled *)

Inductive result (A : Type) : Type :=
  | Ok (a : A)
  | Raise (e : exn).
Arguments Ok {A} a.
Arguments Raise {A} e.

Definition rbind {A B} (r : result A) (k : A -> result B) : result B :=
  match r with
  | Ok a => k a
  | Raise e => Raise e
  end.

Fixpoint rmapM {A B} (f : A -> result B) (l : list A) : result (list B) :=
  match l with
  | [] => Ok []
  | x :: l' => rbind (f x) (fun y => rbind (rmapM f l') (fun ys => Ok (y :: ys)))
  end.

#[global] Instance exn_eq_dec : EqDecision exn.
Proof. solve_decision. Defined.

#[global] Instance result_eq_dec {A} `{EqDecision A} : EqDecision (result A).
Proof. solve_decision. Defined.

(** ** Strings

    A Python [str] is a sequence of Unicode code points; a [string] here is
    its UTF-8 encoding, one [ascii] per byte. *)

Module Str.

(** The payload of a continuation byte [10xxxxxx]. *)
Definition continuation (b : ascii) : option N :=
  let n := N_of_ascii b in
  if ((128 <=? n) && (n <? 192))%N then Some (n - 128)%N else None.

(** The first code point of a string and the rest of the string; nothing
    for the empty string and for bytes that are not UTF-8 (overlong forms
    included).  A lone surrogate, which a [str] can hold, is encoded like
    the other code points of its range. *)
Definition decode (s : string) : option (N * string) :=
  match s with
  | EmptyString => None
  | String a s1 =>
      let n := N_of_ascii a in
      if (n <? 128)%N then Some (n, s1)
      else if (n <? 194)%N then None
      else if (n <? 224)%N then
        match s1 with
        | String b s2 =>
            match continuation b with
            | Some x => Some (((n - 192) * 64 + x)%N, s2)
            | None => None
            end
        | EmptyString => None
        end
      else if (n <? 240)%N then
        match s1 with
        | String b (String c s3) =>
            match continuation b, continuation c with
            | Some x, Some y =>
                let cp := ((n - 224) * 4096 + x * 64 + y)%N in
                if (2048 <=? cp)%N then Some (cp, s3) else None
            | _, _ => None
            end
        | _ => None
        end
      else if (n <? 245)%N then
        match s1 with
        | String b (String c (String d s4)) =>
            match continuation b, continuation c, continuation d with
            | Some x, Some y, Some z =>
                let cp := ((n - 240) * 262144 + x * 4096 + y * 64 + z)%N in
                if ((65536 <=? cp) && (cp <? 1114112))%N
                then Some (cp, s4) else None
            | _, _, _ => None
            end
        | _ => None
        end
      else None
  end.

(** The decimal digits of Unicode (general category Nd, what [\d] matches
    in a [str] pattern and what [int] accepts) come in blocks of ten, zero
    to nine; these are the code points of the zeros (Unicode 14: ASCII,
    Arabic-Indic, Devanagari, ..., fullwidth, mathematical, ...). *)
Definition decimal_zeros : list N :=
  [ 48; 1632; 1776; 1984; 2406; 2534; 2662; 2790; 2918; 3046; 3174; 3302;
    3430; 3558; 3664; 3792; 3872; 4160; 4240; 6112; 6160; 6470; 6608; 6784;
    6800; 6992; 7088; 7232; 7248; 42528; 43216; 43264; 43472; 43504; 43600;
    44016; 65296; 66720; 68912; 69734; 69872; 69942; 70096; 70384; 70736;
    70864; 71248; 71360; 71472; 71904; 72016; 72784; 73040; 73120; 92768;
    92864; 93008; 120782; 120792; 120802; 120812; 120822; 123200; 123632;
    125264; 130032 ]%N.

(** The value of a code point that is a decimal digit. *)
Definition decimal_value (cp : N) : option Z :=
  match List.find (fun z => ((z <=? cp) && (cp <? z + 10))%N) decimal_zeros with
  | Some z => Some (Z.of_N (cp - z))
  | None => None
  end.

(** A decimal digit at the start of [s]: its value and the rest of [s]. *)
Definition split_digit (s : string) : option (Z * string) :=
  match decode s with
  | Some (cp, rest) =>
      match decimal_value cp with
      | Some v => Some (v, rest)
      | None => None
      end
  | None => None
  end.

(** The longest run of decimal digits at the start of [s], what a greedy
    [\d+] consumes: the values of the digits, and the rest of [s].  The
    run has at most as many digits as [s] has bytes. *)
Fixpoint span_digits_upto (n : nat) (s : string) : list Z * string :=
  match n with
  | O => ([], s)
  | S n' =>
      match split_digit s with
      | Some (v, r) => let '(vs, rest) := span_digits_upto n' r in (v :: vs, rest)
      | None => ([], s)
      end
  end.

Definition span_digits (s : string) : list Z * string :=
  span_digits_upto (String.length s) s.

(** Python's [int] on a string of decimal digits, given by the values of
    its digits.  CPython (3.11, and the later releases of 3.7 to 3.10)
    refuses a string of more than 4300 digits, leading zeros counted. *)
Definition int_of_digits (ds : list Z) : result Z :=
  match ds with
  | [] => Raise ValueError
  | _ =>
      if 4300 <? Z.of_nat (length ds) then Raise ValueError
      else Ok (fold_left (fun acc d => 10 * acc + d) ds 0)
  end.

(** [strip_prefix p s] is the rest of [s] after a leading [p]. *)
Fixpoint strip_prefix (p s : string) : option string :=
  match p, s with
  | EmptyString, _ => Some s
  | String a p', String b s' =>
      if Ascii.eqb a b then strip_prefix p' s' else None
  | String _ _, EmptyString => None
  end.

(** Python's [str] on an [int]. *)
Definition str_of_int (z : Z) : string := NilZero.string_of_int (Z.to_int z).

(** Python's [str.replace(old, new)] for a non-empty [old]: every
    non-overlapping occurrence, leftmost first.  [skip] counts the
    characters of an occurrence still to be dropped. *)
Fixpoint replace_from (skip : nat) (old new s : string) : string :=
  match s with
  | EmptyString => EmptyString
  | String c s' =>
      match skip with
      | S k => replace_from k old new s'
      | O =>
          match strip_prefix old s with
          | Some _ => new +:+ replace_from (Nat.pred (String.length old)) old new s'
          | None => String c (replace_from O old new s')
          end
      end
  end.

Definition replace (old new s : string) : string := replace_from O old new s.

(** What it is for a string to start with a run of decimal digits: [s]
    is digits of values [vs], then [rest], and [rest] does not start with
    a decimal digit. *)
Inductive digit_run : string -> list Z -> string -> Prop :=
  | digit_run_end (s : string) :
      split_digit s = None -> digit_run s [] s
  | digit_run_step (s : string) (v : Z) (r : string) (vs : list Z) (rest : string) :
      split_digit s = Some (v, r) -> digit_run r vs rest ->
      digit_run s (v :: vs) rest.

(** The number that digits write in base ten: each digit counts for its
    value times ten to the number of digits after it. *)
Fixpoint positional (vs : list Z) : Z :=
  match vs with
  | [] => 0
  | v :: vs' => v * 10 ^ Z.of_nat (length vs') + positional vs'
  end.

End Str.

(** ** [re.search(f'task-{task}(\d+)', x)]

    The pattern is the text [task-], the task name and one group of one or
    more digits.  The task name is interpolated into the pattern, so its
    characters are read as a regular expression: a [.] in it stands for
    any character.  The names modelled are those made of characters that
    stand for themselves and of [.]; a name with another special character
    ([^$*+?{}[]\|()]) is outside the model. *)

Module Re.

Inductive atom : Type :=
  | Lit (c : ascii)     (* a character that stands for itself *)
  | Dot.                (* [.]: any character but a newline *)

Definition special (c : ascii) : bool :=
  existsb (Ascii.eqb c) (list_ascii_of_string ".^$*+?{}[]\|()").

Definition literal_char (c : ascii) : bool := negb (special c).

(** The names that are plain text in a pattern. *)
Definition regex_literal (task : string) : bool :=
  forallb literal_char (list_ascii_of_string task).

(** The pattern that plain text is. *)
Definition literal (s : string) : list atom := Lit <$> list_ascii_of_string s.

(** The pattern that a task name is, when it is in the model. *)
Fixpoint parse (task : string) : option (list atom) :=
  match task with
  | EmptyString => Some []
  | String c task' =>
      if Ascii.eqb c "." then cons Dot <$> parse task'
      else if special c then None
      else cons (Lit c) <$> parse task'
  end.

(** A match of the atoms anchored at the start of [s]: the rest of [s]. *)
Fixpoint match_atoms (p : list atom) (s : string) : option string :=
  match p with
  | [] => Some s
  | Lit c :: p' =>
      match s with
      | String d s' => if Ascii.eqb c d then match_atoms p' s' else None
      | EmptyString => None
      end
  | Dot :: p' =>
      match Str.decode s with
      | Some (cp, s') => if (cp =? 10)%N then None else match_atoms p' s'
      | None => None
      end
  end.

(** A match of [p(\d+)] anchored at the start of [s]: group 1, as the
    values of its digits. *)
Definition match_here (p : list atom) (s : string) : option (list Z) :=
  match match_atoms p s with
  | Some r =>
      match (Str.span_digits r).1 with
      | [] => None
      | ds => Some ds
      end
  | None => None
  end.

(** The leftmost match, as [re.search] scans: group 1, or [None].  The
    patterns of the script start with [t], so a match starts at a
    character of the string, never inside one. *)
Fixpoint search (p : list atom) (s : string) : option (list Z) :=
  match match_here p s with
  | Some g => Some g
  | None =>
      match s with
      | EmptyString => None
      | String _ s' => search p s'
      end
  end.

End Re.

(** ** [_get_segment] *)

(** The sort key [lambda x: int(re.search(f'task-{task}(\d+)', x).group(1))]. *)
Definition segment_key (task x : string) : result Z :=
  match Re.parse task with
  | Some p =>
      match Re.search (Re.literal "task-" ++ p) x with
      | Some g => Str.int_of_digits g
      | None => Raise AttributeError
      end
  | None => Raise NotModelled
  end.

(** Python's [sorted(.., key=..)] is stable.  Elements come decorated with
    their keys; an element is placed before the first one whose key is not
    smaller, and the list is built from the right, so equal keys keep their
    input order. *)
Fixpoint insert_by_key {A} (a : Z * A) (l : list (Z * A)) : list (Z * A) :=
  match l with
  | [] => [a]
  | b :: l' => if a.1 <=? b.1 then a :: b :: l' else b :: insert_by_key a l'
  end.

Definition sort_by_key {A} (l : list (Z * A)) : list (Z * A) :=
  foldr insert_by_key [] l.

Definition sorted_with_key {A} (key : A -> result Z) (l : list A) : result (list A) :=
  rbind (rmapM key l) (fun ks => Ok ((sort_by_key (zip ks l)).*2)).

Definition _get_segment (files : list string) (task : string) : result (list string) :=
  sorted_with_key (segment_key task) files.

(** A file name "has a segment index" for a task when it contains the text
    [task-], the task name and a decimal digit, one after the other. *)
Definition has_segment_index (task x : string) : Prop :=
  exists pre post,
    x = pre +:+ ("task-" +:+ task) +:+ post /\ is_Some (Str.split_digit post).

(** The segment index of a file name, read off the name: the number
    written by the digits, at most 4300 of them, that follow the first
    place where the name has [task-], the task name and a decimal digit. *)
Definition segment_index (task x : string) (n : Z) : Prop :=
  exists pre post vs rest,
    x = pre +:+ ("task-" +:+ task) +:+ post /\
    Str.digit_run post vs rest /\ vs <> [] /\
    Z.of_nat (length vs) <= 4300 /\
    n = Str.positional vs /\
    (forall pre' post', x = pre' +:+ ("task-" +:+ task) +:+ post' ->
       is_Some (Str.split_digit post') ->
       (String.length pre <= String.length pre')%nat).

(** [out] is the list [files] put in the order of the segment indices of
    its names. *)
Definition sorted_by_segment (task : string) (files out : list string) : Prop :=
  out ≡ₚ files /\
  exists ns, Forall2 (segment_index task) out ns /\ StronglySorted Z.le ns.

(** Order of decorated elements: by key. *)
Definition fst_le {A} (a b : Z * A) : Prop := a.1 <= b.1.

(** In the result of [sorted], [x] stands before [y] only when its key is
    not greater. *)
Definition key_le {A} (key : A -> result Z) (x y : A) : Prop :=
  exists kx ky, key x = Ok kx /\ key y = Ok ky /\ kx <= ky.

(** ** Python list operations *)

(** [l[:k]]: the first [k] elements, a negative [k] counting from the end. *)
Definition py_take {A} (k : Z) (l : list A) : list A :=
  if 0 <=? k then take (Z.to_nat k) l
  else take (Z.to_nat (Z.of_nat (length l) + k)) l.

(** [l[n]] for an index produced by [enumerate]. *)
Definition py_index {A} (l : list A) (n : nat) : result A :=
  match l !! n with
  | Some a => Ok a
  | None => Raise IndexError
  end.

(** ** Confound tables

    The structured array that [np.recfromcsv] returns, kept by field: each
    field name with its column.  Indexing it with a list of field names
    gives the array of those fields, in the order asked for, and raises
    when a name is not a field. *)

Section Confounds.

Context {V : Type}.

Definition recarray : Type := list (string * list V).

Definition field_names (a : recarray) : list string := a.*1.

Fixpoint field (a : recarray) (c : string) : option (list V) :=
  match a with
  | [] => None
  | (c', col) :: a' => if String.eqb c c' then Some col else field a' c
  end.

Definition select_fields (cs : list string) (a : recarray) : result recarray :=
  rmapM (fun c => match field a c with
                  | Some col => Ok (c, col)
                  | None => Raise KeyError
                  end) cs.

(** [recfunctions.structured_to_unstructured]: the plain array of the
    same cells, here as the list of its columns. *)
Definition structured_to_unstructured (a : recarray) : list (list V) := a.*2.

End Confounds.
Arguments recarray V : clear implicits.

Definition keep_confounds : list string :=
  ["trans_x"; "trans_y"; "trans_z";
   "rot_x"; "rot_y"; "rot_z";
   "csf"; "white_matter"].

(** ** The masker of nilearn *)

Record NiftiMasker : Type := {
  mask_img : string;
  standardize : bool;
  detrend : bool;
  high_pass : option Q;
  t_r : option Q;
  smoothing_fwhm : option Z
}.

(** ** Images

    A 4D image is the list of its volumes along the time axis. *)

Definition image (volume : Type) : Type := list volume.

(** [img.slicer[..., :k]]; nibabel refuses a slice that leaves no volume. *)
Definition slicer_time {volume} (img : image volume) (k : Z) : result (image volume) :=
  match py_take k img with
  | [] => Raise IndexError
  | r => Ok r
  end.

(** [image.concat_imgs]: the images one after the other along time; nilearn
    refuses an empty list. *)
Definition concat_imgs {volume} (imgs : list (image volume)) : result (image volume) :=
  match imgs with
  | [] => Raise TypeError
  | _ => Ok (concat imgs)
  end.

(** ** [create_data_dictionary] *)

Inductive pyval : Type :=
  | PList (l : list Z)
  | PStr (s : string).

(** An inner dictionary, in insertion order (the order of [.values()]). *)
Definition task_entry : Type := list (string * pyval).

(** A dictionary display or comprehension: later keys replace earlier ones. *)
Definition dict_of_items {A} (items : list (string * A)) : gmap string A :=
  foldl (fun d kv => <[kv.1 := kv.2]> d) ∅ items.

Definition create_data_dictionary : list string * gmap string task_entry :=
  let tasks := ["bourne"; "wolf"; "figures"; "life"] in
  let segment_lengths :=
    [ [403; 405; 405; 405; 405; 405; 405; 405; 405; 380];
      [406; 406; 406; 406; 406; 406; 406; 406; 406; 406;
       406; 406; 406; 406; 406; 406; 498];
      [410; 410; 410; 409; 408; 410; 410; 409; 410; 409; 409; 373];
      [406; 406; 406; 406; 384] ] in
  let regr_str := ["desc-confounds_regressors.tsv";
                   "run-1_desc-confounds_regressors.tsv"] in
  let tmpl_str := ["space-MNI152NLin2009cAsym_desc-preproc_bold";
                   "run-1_space-MNI152NLin2009cAsym_desc-preproc_bold"] in
  let regr_pairs := flat_map (fun x => replicate 2 x) regr_str in
  let tmpl_pairs := flat_map (fun x => replicate 2 x) tmpl_str in
  let data_dictionary :=
    dict_of_items
      (map (fun '(t, seg_len, regr, tmpl) =>
              (t, [("segment_lengths", PList seg_len);
                   ("regr_str", PStr regr); ("tmpl_str", PStr tmpl)]))
           (zip (zip (zip tasks segment_lengths) regr_pairs) tmpl_pairs)) in
  (tasks, data_dictionary).

(** Reading an inner dictionary by key, and the number of segment lengths
    a task has. *)
Definition dict_get (e : task_entry) (k : string) : option pyval :=
  (fun r => r.2.2) <$> list_find (fun kv => kv.1 = k) e.

Definition segment_count (d : gmap string task_entry) (t : string) : option nat :=
  e ← d !! t;
  match dict_get e "segment_lengths" with
  | Some (PList l) => Some (length l)
  | _ => None
  end.

(** ** Actions on the outside world

    The script reads the dataset and writes its results through library
    calls.  Each such call is recorded as an [event]; a computation yields
    its result, or the exception it raised, together with the events that
    happened up to that point. *)

Inductive event (volume : Type) : Type :=
  | EvRglob (dir pattern : string)
  | EvLoadConfounds (tsv : string)
  | EvClean (masker : NiftiMasker) (scan : string)
  | EvSave (fname : string) (img : image volume)
  | EvPrint (s t : string).
Arguments EvRglob {volume} dir pattern.
Arguments EvLoadConfounds {volume} tsv.
Arguments EvClean {volume} masker scan.
Arguments EvSave {volume} fname img.
Arguments EvPrint {volume} s t.

Definition M (volume A : Type) : Type := result A * list (event volume).

Section Monad.

Context {volume : Type}.

Definition ret {A} (a : A) : M volume A := (Ok a, []).

Definition raise {A} (e : exn) : M volume A := (Raise e, []).

Definition emit (ev : event volume) : M volume unit := (Ok tt, [ev]).

Definition lift {A} (r : result A) : M volume A := (r, []).

Definition bind {A B} (m : M volume A) (k : A -> M volume B) : M volume B :=
  match m with
  | (Ok a, l1) => let '(r, l2) := k a in (r, l1 ++ l2)
  | (Raise e, l1) => (Raise e, l1)
  end.

Fixpoint mapM_ev {A B} (f : A -> M volume B) (l : list A) : M volume (list B) :=
  match l with
  | [] => ret []
  | x :: l' =>
      bind (f x) (fun y => bind (mapM_ev f l') (fun ys => ret (y :: ys)))
  end.

(** A [for] loop run for its effects. *)
Fixpoint for_each {A} (l : list A) (body : A -> M volume unit) : M volume unit :=
  match l with
  | [] => ret tt
  | x :: l' => bind (body x) (fun _ => for_each l' body)
  end.

End Monad.

Notation "x <- m ;; k" := (bind m (fun x => k))
  (at level 100, m at next level, right associativity).
Notation "m ;;; k" := (bind m (fun _ => k))
  (at level 100, right associativity).

(** ** The dataset and the libraries

    What the script's library calls answer: the paths a recursive glob
    yields, the table read from a confound file, the signals a masker
    extracts from a scan and the image it rebuilds from them, and whether a
    path can be written. *)

Record world (V volume signals : Type) : Type := {
  rglob : string -> string -> list string;
  recfromcsv : string -> result (recarray V);
  fit_transform : NiftiMasker -> string -> list (list V) -> result signals;
  inverse_transform : NiftiMasker -> signals -> image volume;
  writable : string -> bool
}.
Arguments rglob {V volume signals} w dir pattern.
Arguments recfromcsv {V volume signals} w tsv.
Arguments fit_transform {V volume signals} w masker scan confounds.
Arguments inverse_transform {V volume signals} w masker cleaned.
Arguments writable {V volume signals} w fname.

(** The module-level names that [subset_and_process_movie10] reads: the
    loop variables of the main program.  [None] is a name not yet bound. *)
Record globals : Type := {
  g_s : option string;
  g_t : option string;
  g_tmpl : option string;
  g_seg_len : option (list Z)
}.

Definition subjects : list string :=
  ["sub-01"; "sub-02"; "sub-03"; "sub-04"; "sub-05"; "sub-06"].

Section Pipeline.

Context {V volume signals : Type}.
Variable w : world V volume signals.

Local Abbreviation IO := (M volume).

Definition read_global {A} (x : option A) : IO A :=
  match x with
  | Some a => ret a
  | None => raise NameError
  end.

Definition read_local {A} (x : option A) : IO A :=
  match x with
  | Some a => ret a
  | None => raise UnboundLocalError
  end.

Definition _subset_confounds (tsv : string) : IO (recarray V) :=
  emit (EvLoadConfounds tsv) ;;;
  confounds <- lift (recfromcsv w tsv) ;;
  selected_confounds <- lift (select_fields keep_confounds confounds) ;;
  ret selected_confounds.

Definition make_masker (mask : string) (fwhm : option Z) : NiftiMasker :=
  {| mask_img := mask; standardize := true; detrend := true;
     high_pass := Some 0.01%Q; t_r := Some 1.49%Q;
     smoothing_fwhm := fwhm |}.

Definition _nifti_mask_movie (scan mask : string) (confounds : list (list V))
    (smoothing_fwhm : option Z) : IO (image volume) :=
  let masker := make_masker mask smoothing_fwhm in
  emit (EvClean masker scan) ;;;
  cleaned <- lift (fit_transform w masker scan confounds) ;;
  ret (inverse_transform w masker cleaned).

Definition nib_save (img : image volume) (fname : string) : IO unit :=
  if writable w fname then emit (EvSave fname img) else raise OSError.

Definition tpl_mask : string :=
  "./tpl-MNI152NLin2009cAsym_res-02_desc-brain_mask.nii.gz".

Section Process.

Variable G : globals.
Variable confounds : list (recarray V).
Variable fwhm : option Z.

(** The body of [for n, m in enumerate(movie_segments)]. *)
Definition process_segment (n : nat) (m : string) : IO (image volume) :=
  conf <- lift (py_index confounds n) ;;
  postproc <- _nifti_mask_movie m tpl_mask (structured_to_unstructured conf) fwhm ;;
  seg_len <- read_global (g_seg_len G) ;;
  k <- lift (py_index seg_len n) ;;
  lift (slicer_time postproc k).

Fixpoint process_segments (n : nat) (ms : list string) : IO (list (image volume)) :=
  match ms with
  | [] => ret []
  | m :: ms' =>
      p <- process_segment n m ;;
      ps <- process_segments (S n) ms' ;;
      ret (p :: ps)
  end.

End Process.

Definition postproc_name (s t tmpl : string) (fwhm : option Z) : string :=
  Str.replace "desc-preproc"
    ("desc-fwhm" +:+ match fwhm with
                     | Some f => Str.str_of_int f
                     | None => "None"
                     end)
    (s +:+ "/" +:+ s +:+ "_task-" +:+ t +:+ "_" +:+ tmpl +:+ ".nii.gz").

(** Lines 176-182: [movie_segments] and [regressor_segments] are local
    names, bound only when [n_segments] is given. *)
Definition bind_segments (bold_files regressors : list string)
    (n_segments : option Z) : IO (option (list string) * option (list string)) :=
  match n_segments with
  | Some n =>
      if n <=? Z.of_nat (length bold_files)
      then ret (Some (py_take n bold_files), Some (py_take n regressors))
      else raise AssertionError
  | None => ret (None, None)
  end.

(** Lines 184-199, from the two local names. *)
Definition process_bound_segments (G : globals) (fwhm : option Z)
    (locals : option (list string) * option (list string)) : IO string :=
  let '(movie_segments, regressor_segments) := locals in
  rs <- read_local regressor_segments ;;
  confounds <- mapM_ev _subset_confounds rs ;;
  ms <- read_local movie_segments ;;
  postproc_segments <- process_segments G confounds fwhm 0 ms ;;
  s <- read_global (g_s G) ;;
  t <- read_global (g_t G) ;;
  tmpl <- read_global (g_tmpl G) ;;
  let postproc_fname := postproc_name s t tmpl fwhm in
  movie <- lift (concat_imgs postproc_segments) ;;
  nib_save movie postproc_fname ;;;
  ret postproc_fname.

(** [segment_lengths] is a parameter the body never reads: the loop takes
    its lengths from the module-level [seg_len]. *)
Definition subset_and_process_movie10 (G : globals)
    (bold_files regressors : list string) (segment_lengths : list Z)
    (n_segments : option Z) (fwhm : option Z) : IO string :=
  locals <- bind_segments bold_files regressors n_segments ;;
  process_bound_segments G fwhm locals.

(** [seg_len, regr, tmpl = data_dictionary[t].values()] *)
Definition unpack_entry (d : gmap string task_entry) (t : string)
    : IO (list Z * string * string) :=
  match d !! t with
  | Some entry =>
      match entry.*2 with
      | [PList seg_len; PStr regr; PStr tmpl] => ret (seg_len, regr, tmpl)
      | _ => raise TypeError
      end
  | None => raise KeyError
  end.

Definition glob_files (dir pattern : string) : IO (list string) :=
  emit (EvRglob dir pattern) ;;; ret (rglob w dir pattern).

(** One turn of the main loop.  The two globs are generators: the
    dataset is searched when each list is built, just before its sort. *)
Definition main_body (data_dictionary : gmap string task_entry)
    (st : string * string) : IO unit :=
  let '(s, t) := st in
  e <- unpack_entry data_dictionary t ;;
  let '(seg_len, regr, tmpl) := e in
  files <- glob_files s ("*" +:+ t +:+ "*" +:+ tmpl +:+ ".nii.gz") ;;
  movie_segments <- lift (_get_segment files t) ;;
  regressors <- glob_files s ("*_task-" +:+ t +:+ "*" +:+ regr) ;;
  regressor_segments <- lift (_get_segment regressors t) ;;
  subset_and_process_movie10
    {| g_s := Some s; g_t := Some t; g_tmpl := Some tmpl; g_seg_len := Some seg_len |}
    movie_segments regressor_segments seg_len (Some 5) (Some 6) ;;;
  emit (EvPrint s t).

Definition main : IO unit :=
  let '(tasks, data_dictionary) := create_data_dictionary in
  for_each (list_prod subjects tasks) (main_body data_dictionary).

End Pipeline.

(** ** Reading a log *)

Definition saved_files {volume} (log : list (event volume)) : list (string * image volume) :=
  omap (fun ev => match ev with EvSave f img => Some (f, img) | _ => None end) log.

(** The (subject, task) pairs whose turn of the main loop ran to its end. *)
Definition printed {volume} (log : list (event volume)) : list (string * string) :=
  omap (fun ev => match ev with EvPrint s t => Some (s, t) | _ => None end) log.

Definition sum_Z (l : list Z) : Z := foldr Z.add 0 l.

(** The pairs [itertools.product(subjects, tasks)] yields, in its order:
    every task of the first subject, then every task of the next. *)
Definition grid : list (string * string) :=
  list_prod subjects create_data_dictionary.1.

Section Segments.

Context {V volume signals : Type}.
Variable w : world V volume signals.

(** The cleaned segment of a BOLD file and its confound file: what the
    loop of [subset_and_process_movie10] has before it truncates. *)
Definition cleaned_segment (fwhm : option Z) (mr : string * string)
    : result (image volume) :=
  (conf <- _subset_confounds w mr.2 ;;
   _nifti_mask_movie w mr.1 tpl_mask (structured_to_unstructured conf) fwhm).1.

(** One complete turn of the main loop for subject [s] and task [t]: two
    searches of the dataset, each list put in the order of the segment
    indices of its names; the confound
    files of the first five segments loaded and their scans cleaned, each
    scan with the table of the confound file of its rank; the file
    written, which holds the five cleaned images, each cut to the length
    the dictionary gives its rank, one after the other; the progress
    line. *)
Definition turn_events (st : string * string) (evs : list (event volume)) : Prop :=
  let '(s, t) := st in
  exists seg_len regr tmpl ms rs imgs,
    unpack_entry (volume:=volume) create_data_dictionary.2 t
      = (Ok (seg_len, regr, tmpl), []) /\
    _get_segment (rglob w s ("*" +:+ t +:+ "*" +:+ tmpl +:+ ".nii.gz")) t = Ok ms /\
    sorted_by_segment t (rglob w s ("*" +:+ t +:+ "*" +:+ tmpl +:+ ".nii.gz")) ms /\
    _get_segment (rglob w s ("*_task-" +:+ t +:+ "*" +:+ regr)) t = Ok rs /\
    sorted_by_segment t (rglob w s ("*_task-" +:+ t +:+ "*" +:+ regr)) rs /\
    rmapM (cleaned_segment (Some 6)) (zip (py_take 5 ms) (py_take 5 rs)) = Ok imgs /\
    length imgs = 5%nat /\
    evs = [EvRglob s ("*" +:+ t +:+ "*" +:+ tmpl +:+ ".nii.gz");
           EvRglob s ("*_task-" +:+ t +:+ "*" +:+ regr)]
          ++ (EvLoadConfounds <$> py_take 5 rs)
          ++ (EvClean (make_masker tpl_mask (Some 6)) <$> py_take 5 ms)
          ++ [EvSave (postproc_name s t tmpl (Some 6))
                (concat (zip_with (fun img k => py_take k img) imgs seg_len));
              EvPrint s t].

(** What one turn of the main loop needs of the dataset to complete: both
    searches find at least five files that all carry a segment index, the
    first five confound files (in segment order) load with the eight
    columns, the first five scans clean to images of at least one volume,
    and the output path can be written. *)
Definition turn_inputs (st : string * string) : Prop :=
  let '(s, t) := st in
  exists seg_len regr tmpl ms rs imgs,
    unpack_entry (volume:=volume) create_data_dictionary.2 t
      = (Ok (seg_len, regr, tmpl), []) /\
    _get_segment (rglob w s ("*" +:+ t +:+ "*" +:+ tmpl +:+ ".nii.gz")) t = Ok ms /\
    _get_segment (rglob w s ("*_task-" +:+ t +:+ "*" +:+ regr)) t = Ok rs /\
    (5 <= length ms)%nat /\ (5 <= length rs)%nat /\
    rmapM (cleaned_segment (Some 6)) (zip (py_take 5 ms) (py_take 5 rs)) = Ok imgs /\
    Forall (fun img => img <> []) imgs /\
    writable w (postproc_name s t tmpl (Some 6)) = true.

End Segments.

(** ** A small dataset

    Six subjects, four movies, five segments each, listed out of order,
    with the file names of fMRIPrep; every scan cleans to eight volumes. *)

Module Demo.

(** Shell-style matching with [*] as the only wildcard. *)
Fixpoint glob_match (pat : string) : string -> bool :=
  match pat with
  | EmptyString => fun s => match s with EmptyString => true | _ => false end
  | String c pat' =>
      if Ascii.eqb c "*" then
        fix star (s : string) : bool :=
          if glob_match pat' s then true
          else match s with
               | EmptyString => false
               | String _ s' => star s'
               end
      else
        fun s => match s with
                 | String d s' => if Ascii.eqb c d then glob_match pat' s' else false
                 | EmptyString => false
                 end
  end.

(** The part of a path after its last [/]. *)
Fixpoint basename (path : string) : string :=
  match path with
  | EmptyString => EmptyString
  | String c rest =>
      if existsb (Ascii.eqb "/") (list_ascii_of_string rest) then basename rest
      else if Ascii.eqb c "/" then rest else path
  end.

Definition run_part (t : string) : string :=
  if bool_decide (t ∈ ["figures"; "life"]) then "run-1_" else "".

Definition bold_name (s t k : string) : string :=
  s +:+ "/ses-001/func/" +:+ s +:+ "_ses-001_task-" +:+ t +:+ k +:+ "_" +:+ run_part t
    +:+ "space-MNI152NLin2009cAsym_desc-preproc_bold.nii.gz".

Definition confound_name (s t k : string) : string :=
  s +:+ "/ses-001/func/" +:+ s +:+ "_ses-001_task-" +:+ t +:+ k +:+ "_" +:+ run_part t
    +:+ "desc-confounds_regressors.tsv".

Definition dataset : list string :=
  s ← subjects; t ← ["bourne"; "wolf"; "figures"; "life"];
  k ← ["03"; "01"; "10"; "2"; "04"];
  [bold_name s t k; confound_name s t k].

Definition table : recarray Z :=
  [("global_signal", [7; 7; 7]);
   ("csf", [1; 2; 3]); ("white_matter", [4; 5; 6]);
   ("trans_x", [10; 11; 12]); ("trans_y", [13; 14; 15]); ("trans_z", [16; 17; 18]);
   ("rot_x", [20; 21; 22]); ("rot_y", [23; 24; 25]); ("rot_z", [26; 27; 28])].

Definition under (dir pattern path : string) : bool :=
  match Str.strip_prefix (dir +:+ "/") path with
  | Some _ => glob_match pattern (basename path)
  | None => false
  end.

Definition files_under (files : list string) (dir pattern : string) : list string :=
  List.filter (under dir pattern) files.

Definition is_file (files : list string) (path : string) : bool :=
  existsb (String.eqb path) files.

Definition world_of (files : list string) : world Z Z (list Z) :=
  {| rglob := files_under files;
     recfromcsv tsv := if is_file files tsv then Ok table else Raise OSError;
     fit_transform masker scan confounds :=
       if is_file files scan then Ok [1; 2; 3; 4; 5; 6; 7; 8] else Raise OSError;
     inverse_transform masker cleaned := cleaned;
     writable fname := true |}.

Definition w : world Z Z (list Z) := world_of dataset.

(** The same libraries over an empty directory tree. *)
Definition empty : world Z Z (list Z) := world_of [].

Definition bourne_bold : list string :=
  [bold_name "sub-01" "bourne" "01"; bold_name "sub-01" "bourne" "2"].

Definition bourne_confounds : list string :=
  [confound_name "sub-01" "bourne" "01"; confound_name "sub-01" "bourne" "2"].

Definition bourne_globals (seg_len : list Z) : globals :=
  {| g_s := Some "sub-01"; g_t := Some "bourne";
     g_tmpl := Some "space-MNI152NLin2009cAsym_desc-preproc_bold";
     g_seg_len := Some seg_len |}.

(** The Arabic-Indic digit three, U+0663, in UTF-8. *)
Definition arabic_three : string := String "217" (String "163" EmptyString).

(** A file name whose segment index has 4301 digits. *)
Definition long_name : string :=
  "a_task-life" +:+ string_of_list_ascii (replicate 4301 "1"%char).

(** Confound files read as tables of different widths: all the columns,
    the eight kept ones in another order, and two columns only. *)
Definition short_table : recarray Z :=
  [("trans_x", [10; 11; 12]); ("white_matter", [4; 5; 6])].

Definition tables : world Z Z (list Z) :=
  {| rglob := files_under dataset;
     recfromcsv tsv :=
       if String.eqb tsv "wide.tsv" then Ok table
       else if String.eqb tsv "narrow.tsv" then Ok (rev (drop 1 table))
       else if String.eqb tsv "short.tsv" then Ok short_table
       else Raise OSError;
     fit_transform masker scan confounds := Ok [1; 2; 3; 4; 5; 6; 7; 8];
     inverse_transform masker cleaned := cleaned;
     writable fname := true |}.

End Demo.

(** * Properties *)

(** ** The exception monad *)

Lemma rbind_ok {A B} (r : result A) (k : A -> result B) b :
  rbind r k = Ok b -> exists a, r = Ok a /\ k a = Ok b.
Proof. destruct r as [a|e]; simpl; [eauto | discriminate]. Qed.

Lemma rmapM_ok {A B} (f : A -> result B) l ys :
  rmapM f l = Ok ys -> Forall2 (fun x y => f x = Ok y) l ys.
Proof.
  revert ys. induction l as [|x l IH]; intros ys H; simpl in H.
  - injection H as <-. constructor.
  - apply rbind_ok in H as (y & Hy & H).
    apply rbind_ok in H as (ys' & Hys & H).
    injection H as <-. constructor; auto.
Qed.

Lemma rmapM_total {A B} (f : A -> result B) l :
  Forall (fun x => exists y, f x = Ok y) l -> exists ys, rmapM f l = Ok ys.
Proof.
  induction 1 as [|x l [y Hy] _ [ys Hys]]; simpl.
  - eauto.
  - rewrite Hy, Hys. simpl. eauto.
Qed.

Lemma rmapM_raise {A B} (f : A -> result B) l e :
  (forall x y, f x = Raise y -> y = e) ->
  Exists (fun x => exists y, f x = Raise y) l -> rmapM f l = Raise e.
Proof.
  intros He. induction 1 as [x l [y Hy]|x l _ IH]; simpl.
  - rewrite Hy. simpl. f_equal. eauto.
  - destruct (f x) as [b|y] eqn:Hx; simpl.
    + rewrite IH. reflexivity.
    + f_equal. eauto.
Qed.

(** ** Searching a file name for its segment index *)

Lemma append_nil_l (r : string) : EmptyString +:+ r = r.
Proof. reflexivity. Qed.

Lemma append_cons (a : ascii) (p r : string) : String a p +:+ r = String a (p +:+ r).
Proof. reflexivity. Qed.

Lemma strip_prefix_spec p s r :
  Str.strip_prefix p s = Some r <-> s = p +:+ r.
Proof.
  revert s. induction p as [|a p IH]; intros s; cbn;
    rewrite ?append_nil_l, ?append_cons.
  - split; congruence.
  - destruct s as [|b s]; [split; discriminate|].
    destruct (Ascii.eqb_spec a b) as [->|Hne].
    + rewrite IH. split; congruence.
    + split; [discriminate | congruence].
Qed.

(** Decoding consumes at least one byte. *)
Lemma decode_shorter s cp r :
  Str.decode s = Some (cp, r) -> (String.length r < String.length s)%nat.
Proof.
  unfold Str.decode. intros H.
  repeat case_match; simplify_eq; simpl; lia.
Qed.

Lemma split_digit_shorter s v r :
  Str.split_digit s = Some (v, r) -> (String.length r < String.length s)%nat.
Proof.
  unfold Str.split_digit. intros H.
  destruct (Str.decode s) as [[cp r']|] eqn:Hd; [|discriminate].
  destruct (Str.decimal_value cp); [|discriminate].
  injection H as _ <-. by eapply decode_shorter.
Qed.

(** The run that [span_digits] computes is the run of digits the string
    starts with. *)
Lemma span_upto_run n : forall s,
  (String.length s <= n)%nat ->
  Str.digit_run s (Str.span_digits_upto n s).1 (Str.span_digits_upto n s).2.
Proof.
  induction n as [|n IH]; intros s Hn; simpl.
  - destruct s; [|simpl in Hn; lia]. by apply Str.digit_run_end.
  - destruct (Str.split_digit s) as [[v r]|] eqn:Hs.
    + pose proof (split_digit_shorter _ _ _ Hs) as Hr.
      specialize (IH r ltac:(lia)).
      destruct (Str.span_digits_upto n r) as [vs rest]. simpl in *.
      eapply Str.digit_run_step; eauto.
    + by apply Str.digit_run_end.
Qed.

Lemma digit_run_fun s vs rest vs' rest' :
  Str.digit_run s vs rest -> Str.digit_run s vs' rest' -> vs = vs' /\ rest = rest'.
Proof.
  intros H. revert vs' rest'.
  induction H as [s Hs|s v r vs rest Hs _ IH]; intros vs' rest' H';
    inversion H' as [s' Hs'|s' v' r' vs'' rest'' Hs' Hrun]; subst.
  - done.
  - congruence.
  - congruence.
  - rewrite Hs in Hs'. injection Hs' as <- <-.
    destruct (IH _ _ Hrun) as [-> ->]. done.
Qed.

Lemma span_digits_spec s vs rest :
  Str.span_digits s = (vs, rest) <-> Str.digit_run s vs rest.
Proof.
  pose proof (span_upto_run (String.length s) s ltac:(lia)) as Hrun.
  fold (Str.span_digits s) in Hrun. split.
  - intros H. by rewrite H in Hrun.
  - intros H. destruct (digit_run_fun _ _ _ _ _ Hrun H) as [<- <-].
    by destruct (Str.span_digits s).
Qed.

Lemma digit_run_nonempty s vs rest :
  Str.digit_run s vs rest -> (vs <> [] <-> is_Some (Str.split_digit s)).
Proof.
  intros [s' Hs|s' v r vs' rest' Hs _].
  - rewrite Hs. split; [done | by intros [? ?]].
  - rewrite Hs. split; [eauto | done].
Qed.

Lemma digit_run_exists s :
  exists vs rest, Str.digit_run s vs rest.
Proof.
  exists (Str.span_digits s).1, (Str.span_digits s).2.
  apply span_digits_spec. by destruct (Str.span_digits s).
Qed.

(** Plain text as a pattern. *)
Lemma literal_cons a p : Re.literal (String a p) = Re.Lit a :: Re.literal p.
Proof. reflexivity. Qed.

Lemma literal_app a b : Re.literal (a +:+ b) = Re.literal a ++ Re.literal b.
Proof.
  induction a as [|c a IH]; [reflexivity|].
  rewrite append_cons, !literal_cons, IH. reflexivity.
Qed.

Lemma match_atoms_literal lit s r :
  Re.match_atoms (Re.literal lit) s = Some r <-> s = lit +:+ r.
Proof.
  revert s. induction lit as [|a lit IH]; intros s;
    rewrite ?append_nil_l, ?append_cons, ?literal_cons; simpl.
  - split; congruence.
  - destruct s as [|b s]; [split; discriminate|].
    destruct (Ascii.eqb_spec a b) as [->|Hne].
    + rewrite IH. split; congruence.
    + split; [discriminate | congruence].
Qed.

Lemma parse_literal task :
  Re.regex_literal task = true -> Re.parse task = Some (Re.literal task).
Proof.
  unfold Re.regex_literal. induction task as [|c task IH]; [reflexivity|].
  simpl. intros [Hc Ht]%andb_true_iff. rewrite literal_cons.
  destruct (Ascii.eqb_spec c ".") as [->|Hne]; [discriminate|].
  unfold Re.literal_char in Hc. destruct (Re.special c); [discriminate|].
  by rewrite (IH Ht).
Qed.

Lemma match_here_lit lit s vs :
  Re.match_here (Re.literal lit) s = Some vs <->
  exists post rest, s = lit +:+ post /\ Str.digit_run post vs rest /\ vs <> [].
Proof.
  unfold Re.match_here. split.
  - destruct (Re.match_atoms (Re.literal lit) s) as [r|] eqn:Hr; [|discriminate].
    apply match_atoms_literal in Hr as ->.
    destruct (Str.span_digits r) as [ds rest] eqn:Hspan. simpl.
    apply span_digits_spec in Hspan.
    destruct ds as [|d ds]; [discriminate|]. intros [= <-].
    exists r, rest. done.
  - intros (post & rest & -> & Hrun & Hne).
    rewrite (proj2 (match_atoms_literal lit (lit +:+ post) post) eq_refl).
    apply span_digits_spec in Hrun as ->. simpl. by destruct vs.
Qed.

Lemma match_here_lit_is_Some lit s :
  is_Some (Re.match_here (Re.literal lit) s) <->
  exists post, s = lit +:+ post /\ is_Some (Str.split_digit post).
Proof.
  split.
  - intros [vs (post & rest & -> & Hrun & Hne)%match_here_lit].
    exists post. split; [done|]. by apply (digit_run_nonempty _ _ _ Hrun).
  - intros (post & -> & Hd). destruct (digit_run_exists post) as (vs & rest & Hrun).
    exists vs. apply match_here_lit. exists post, rest. split; [done|].
    split; [done|]. by apply (digit_run_nonempty _ _ _ Hrun).
Qed.

Lemma search_unfold p c s :
  Re.search p (String c s) =
  match Re.match_here p (String c s) with
  | Some g => Some g
  | None => Re.search p s
  end.
Proof. reflexivity. Qed.

Lemma search_here p s g : Re.match_here p s = Some g -> Re.search p s = Some g.
Proof. intros H. destruct s; simpl; by rewrite H. Qed.

(** [re.search] with a plain text before the digits finds the digits after
    the first place where the text is followed by a digit. *)
Lemma search_lit lit s vs :
  Re.search (Re.literal lit) s = Some vs <->
  exists pre post rest,
    s = pre +:+ lit +:+ post /\ Str.digit_run post vs rest /\ vs <> [] /\
    (forall pre' post', s = pre' +:+ lit +:+ post' ->
       is_Some (Str.split_digit post') ->
       (String.length pre <= String.length pre')%nat).
Proof.
  split.
  - assert (Hhere : forall s, Re.match_here (Re.literal lit) s = Some vs ->
      exists pre post rest,
        s = pre +:+ lit +:+ post /\ Str.digit_run post vs rest /\ vs <> [] /\
        (forall pre' post', s = pre' +:+ lit +:+ post' ->
           is_Some (Str.split_digit post') ->
           (String.length pre <= String.length pre')%nat)).
    { intros s' (post & rest & -> & Hrun & Hne)%match_here_lit.
      exists EmptyString, post, rest. split; [reflexivity|].
      split; [done|]. split; [done|]. intros. simpl. lia. }
    induction s as [|c s IH].
    + simpl. destruct (Re.match_here (Re.literal lit) EmptyString) as [g|] eqn:Hm;
        [|discriminate]. intros [= ->]. by apply Hhere.
    + rewrite search_unfold.
      destruct (Re.match_here (Re.literal lit) (String c s)) as [g|] eqn:Hm.
      * intros [= ->]. by apply Hhere.
      * intros H. destruct (IH H) as (pre & post & rest & -> & Hrun & Hne & Hleft).
        exists (String c pre), post, rest. split; [reflexivity|].
        split; [done|]. split; [done|].
        intros pre' post' Heq Hd. destruct pre' as [|c' pre'].
        -- exfalso. rewrite append_nil_l in Heq.
           destruct (proj2 (match_here_lit_is_Some lit
                              (String c (pre +:+ lit +:+ post)))) as [g Hg];
             [eauto|]. congruence.
        -- rewrite append_cons in Heq. injection Heq as _ Heq.
           specialize (Hleft pre' post' Heq Hd). simpl. lia.
  - intros (pre & post & rest & -> & Hrun & Hne & Hleft).
    induction pre as [|c pre IH].
    + rewrite append_nil_l. apply search_here, match_here_lit. eauto.
    + rewrite append_cons, search_unfold.
      destruct (Re.match_here (Re.literal lit) (String c (pre +:+ lit +:+ post)))
        as [g|] eqn:Hm.
      * exfalso.
        destruct (proj1 (match_here_lit_is_Some lit
                           (String c (pre +:+ lit +:+ post)))) as (post' & Heq & Hd);
          [eauto|].
        specialize (Hleft EmptyString post' Heq Hd). simpl in Hleft. lia.
      * apply IH. intros pre' post' Heq Hd.
        specialize (Hleft (String c pre') post'). rewrite append_cons in Hleft.
        specialize (Hleft ltac:(by rewrite Heq) Hd). simpl in Hleft. lia.
Qed.

Lemma search_lit_is_Some lit s :
  is_Some (Re.search (Re.literal lit) s) <->
  exists pre post, s = pre +:+ lit +:+ post /\ is_Some (Str.split_digit post).
Proof.
  split.
  - intros [vs (pre & post & rest & -> & Hrun & Hne & _)%search_lit].
    exists pre, post. split; [done|]. by apply (digit_run_nonempty _ _ _ Hrun).
  - intros (pre & post & -> & Hd). induction pre as [|c pre IH].
    + rewrite append_nil_l.
      destruct (proj2 (match_here_lit_is_Some lit (lit +:+ post))) as [g Hg]; [eauto|].
      exists g. by apply search_here.
    + rewrite append_cons, search_unfold. destruct (Re.match_here _ _); eauto.
Qed.

(** The number [int] reads is the number the digits write. *)
Lemma fold_positional vs : forall a,
  fold_left (fun acc d => 10 * acc + d) vs a
  = a * 10 ^ Z.of_nat (length vs) + Str.positional vs.
Proof.
  induction vs as [|v vs IH]; intros a; simpl fold_left.
  - simpl. lia.
  - rewrite IH. change (length (v :: vs)) with (S (length vs)).
    rewrite Nat2Z.inj_succ, Z.pow_succ_r by lia.
    change (Str.positional (v :: vs))
      with (v * 10 ^ Z.of_nat (length vs) + Str.positional vs).
    ring.
Qed.

Lemma int_of_digits_ok vs n :
  Str.int_of_digits vs = Ok n <->
  vs <> [] /\ Z.of_nat (length vs) <= 4300 /\ n = Str.positional vs.
Proof.
  unfold Str.int_of_digits. destruct vs as [|v vs].
  - split; [discriminate | by intros [? _]].
  - destruct (Z.ltb_spec 4300 (Z.of_nat (length (v :: vs)))) as [Hlong|Hshort].
    + split; [discriminate | intros (_ & ? & _); lia].
    + rewrite fold_positional, Z.mul_0_l, Z.add_0_l. split.
      * intros [= <-]. done.
      * intros (_ & _ & ->). done.
Qed.

Lemma int_of_digits_raise vs e : Str.int_of_digits vs = Raise e -> e = ValueError.
Proof.
  unfold Str.int_of_digits. destruct vs; [congruence|].
  destruct (4300 <? _); congruence.
Qed.

(** The segment index and the search of the script, whatever the task. *)
Lemma segment_index_search task x n :
  segment_index task x n <->
  exists vs, Re.search (Re.literal ("task-" +:+ task)) x = Some vs /\
             Z.of_nat (length vs) <= 4300 /\ n = Str.positional vs.
Proof.
  unfold segment_index. split.
  - intros (pre & post & vs & rest & Hx & Hrun & Hne & Hlen & Hn & Hleft).
    exists vs. split; [|done]. apply search_lit. eauto 8.
  - intros (vs & (pre & post & rest & Hx & Hrun & Hne & Hleft)%search_lit & Hlen & Hn).
    eauto 10.
Qed.

Lemma has_segment_index_search task x :
  has_segment_index task x <->
  is_Some (Re.search (Re.literal ("task-" +:+ task)) x).
Proof. unfold has_segment_index. by rewrite search_lit_is_Some. Qed.

Lemma segment_index_has task x n : segment_index task x n -> has_segment_index task x.
Proof.
  intros (vs & Hs & _)%segment_index_search. apply has_segment_index_search. eauto.
Qed.

(** The key of the script for a task name that is plain text. *)
Lemma segment_key_literal task x :
  Re.regex_literal task = true ->
  segment_key task x =
  match Re.search (Re.literal ("task-" +:+ task)) x with
  | Some g => Str.int_of_digits g
  | None => Raise AttributeError
  end.
Proof.
  intros Ht. unfold segment_key. rewrite (parse_literal _ Ht).
  by rewrite <- literal_app.
Qed.

Lemma segment_key_index task x n :
  Re.regex_literal task = true ->
  segment_key task x = Ok n <-> segment_index task x n.
Proof.
  intros Ht. rewrite (segment_key_literal _ _ Ht), segment_index_search.
  destruct (Re.search _ x) as [g|] eqn:Hs; split.
  - intros (_ & Hlen & Hn)%int_of_digits_ok. eauto.
  - intros (vs & [= <-] & Hlen & Hn). apply int_of_digits_ok.
    split; [|done]. intros ->.
    apply search_lit in Hs as (_ & _ & _ & _ & _ & Hne & _). done.
  - discriminate.
  - intros (vs & [=] & _).
Qed.

Lemma segment_key_no_index task x :
  Re.regex_literal task = true ->
  segment_key task x = Raise AttributeError <-> ~ has_segment_index task x.
Proof.
  intros Ht. rewrite (segment_key_literal _ _ Ht), has_segment_index_search.
  destruct (Re.search _ x) as [g|]; split.
  - intros H%int_of_digits_raise. discriminate.
  - intros H. exfalso. apply H. eauto.
  - intros _ [? ?]. discriminate.
  - done.
Qed.

Lemma segment_key_too_long task x :
  Re.regex_literal task = true ->
  segment_key task x = Raise ValueError ->
  has_segment_index task x /\ ~ exists n, segment_index task x n.
Proof.
  intros Ht H. split.
  - apply has_segment_index_search. rewrite (segment_key_literal _ _ Ht) in H.
    destruct (Re.search _ x); [eauto | discriminate].
  - intros [n Hn]. apply (segment_key_index _ _ _ Ht) in Hn. congruence.
Qed.

Lemma segment_key_raises task x e :
  Re.regex_literal task = true ->
  segment_key task x = Raise e -> e = AttributeError \/ e = ValueError.
Proof.
  intros Ht. rewrite (segment_key_literal _ _ Ht).
  destruct (Re.search _ x) as [g|].
  - intros H%int_of_digits_raise. by right.
  - intros [= <-]. by left.
Qed.

(** ** Stable sorting by key *)

Lemma insert_by_key_perm {A} (a : Z * A) l : insert_by_key a l ≡ₚ a :: l.
Proof.
  induction l as [|b l IH]; simpl; [reflexivity|].
  destruct (a.1 <=? b.1); [reflexivity|].
  rewrite IH. apply Permutation_swap.
Qed.

Lemma sort_by_key_perm {A} (l : list (Z * A)) : sort_by_key l ≡ₚ l.
Proof.
  induction l as [|a l IH]; simpl; [reflexivity|].
  rewrite insert_by_key_perm. by rewrite IH.
Qed.

Lemma insert_by_key_sorted {A} (a : Z * A) l :
  StronglySorted fst_le l -> StronglySorted fst_le (insert_by_key a l).
Proof.
  induction 1 as [|b l Hs IH Hb]; simpl.
  - repeat constructor.
  - destruct (Z.leb_spec a.1 b.1) as [Hle|Hlt].
    + constructor; [by constructor|].
      constructor; [exact Hle|].
      eapply Forall_impl; [exact Hb|]. unfold fst_le. intros; lia.
    + constructor; [exact IH|].
      rewrite insert_by_key_perm. constructor; [unfold fst_le; lia | exact Hb].
Qed.

Lemma sort_by_key_sorted {A} (l : list (Z * A)) : StronglySorted fst_le (sort_by_key l).
Proof.
  induction l as [|a l IH]; simpl; [constructor|].
  by apply insert_by_key_sorted.
Qed.

(** Equal keys keep their input order: the sort is stable. *)
Lemma insert_by_key_filter {A} (k : Z) (a : Z * A) l :
  StronglySorted fst_le l ->
  filter (fun b => b.1 = k) (insert_by_key a l) = filter (fun b => b.1 = k) (a :: l).
Proof.
  induction 1 as [|b l Hs IH Hb]; simpl; [reflexivity|].
  destruct (Z.leb_spec a.1 b.1) as [Hle|Hlt]; [reflexivity|].
  rewrite !filter_cons, IH, !filter_cons.
  destruct (decide (b.1 = k)) as [Hbk|]; destruct (decide (a.1 = k)) as [Hak|];
    try reflexivity.
  lia.
Qed.

Lemma sort_by_key_stable {A} (k : Z) (l : list (Z * A)) :
  filter (fun b => b.1 = k) (sort_by_key l) = filter (fun b => b.1 = k) l.
Proof.
  induction l as [|a l IH]; simpl; [reflexivity|].
  rewrite insert_by_key_filter by apply sort_by_key_sorted.
  by rewrite !filter_cons, IH.
Qed.

Lemma sorted_with_key_spec {A} (key : A -> result Z) l :
  Forall (fun x => exists k, key x = Ok k) l ->
  exists out, sorted_with_key key l = Ok out /\ out ≡ₚ l /\
              StronglySorted (key_le key) out.
Proof.
  intros Hall. destruct (rmapM_total key l Hall) as [ks Hks].
  unfold sorted_with_key. rewrite Hks. simpl. eexists. split; [reflexivity|].
  apply rmapM_ok in Hks.
  assert (Hlen : length l = length ks) by (eapply Forall2_length; eauto).
  split.
  - rewrite sort_by_key_perm. rewrite snd_zip by lia. reflexivity.
  - assert (Hkeys : Forall (fun p => key p.2 = Ok p.1) (sort_by_key (zip ks l))).
    { rewrite sort_by_key_perm. clear Hall Hlen.
      induction Hks; simpl; constructor; auto. }
    pose proof (sort_by_key_sorted (zip ks l)) as Hs.
    induction Hs as [|p ps Hs IH Hp]; simpl; [constructor|].
    apply Forall_cons in Hkeys as [Hk Hkeys].
    constructor; [auto|].
    clear IH Hs. induction Hp as [|q qs Hq Hp IH]; simpl; [constructor|].
    apply Forall_cons in Hkeys as [Hkq Hkeys].
    constructor; [|auto]. exists p.1, q.1. auto.
Qed.

Lemma sorted_with_key_inv {A} (key : A -> result Z) l out :
  sorted_with_key key l = Ok out ->
  exists ks, Forall2 (fun x k => key x = Ok k) l ks /\
             out = (sort_by_key (zip ks l)).*2 /\
             out ≡ₚ l /\ StronglySorted (key_le key) out.
Proof.
  intros H. pose proof H as H'. unfold sorted_with_key in H'.
  apply rbind_ok in H' as (ks & Hks & [= Hout]). apply rmapM_ok in Hks.
  exists ks. split; [exact Hks|]. split; [done|].
  destruct (sorted_with_key_spec key l) as (out' & Hout' & Hperm & Hsorted).
  { eapply Forall2_Forall_l; [exact Hks|]. apply Forall_true. eauto. }
  assert (out' = out) as -> by congruence. auto.
Qed.

Lemma keys_sorted {A} (key : A -> result Z) (out : list A) (ks : list Z) :
  Forall2 (fun x k => key x = Ok k) out ks ->
  StronglySorted (key_le key) out -> StronglySorted Z.le ks.
Proof.
  induction 1 as [|x k l ks Hk Hks IH]; intros Hs; [constructor|].
  apply StronglySorted_inv in Hs as [Hs Hx]. constructor; [auto|].
  clear IH Hs. induction Hks as [|y k' l ks Hy _ IH]; [constructor|].
  apply Forall_cons in Hx as [(kx & ky & H1 & H2 & Hle) Hx].
  constructor; [|auto].
  assert (kx = k) by congruence. assert (ky = k') by congruence. lia.
Qed.

Lemma rmapM_raise_some {A B} (f : A -> result B) (l : list A) :
  Exists (fun x => exists e, f x = Raise e) l ->
  exists e, rmapM f l = Raise e /\ Exists (fun x => f x = Raise e) l.
Proof.
  induction 1 as [x l [e He]|x l _ (e & IH & Hex)]; simpl.
  - exists e. rewrite He. split; [reflexivity | by left].
  - destruct (f x) as [b|e'] eqn:Hx; simpl.
    + exists e. rewrite IH. split; [reflexivity | by right].
    + exists e'. split; [reflexivity | by left].
Qed.

(** [C2] For a task name that is plain text in a pattern and a list of
    file names that each have a segment index (at most 4300 decimal digits
    after the first [task-{task}] followed by a digit), [_get_segment]
    returns a permutation of the list along which the segment indices,
    read off the names as numbers, never decrease, whatever the
    alphabetical order of the names. *)
Theorem get_segment_sorted_permutation (files : list string) (task : string)
    (ns : list Z) :
  Re.regex_literal task = true ->
  Forall2 (segment_index task) files ns ->
  exists out ns',
    _get_segment files task = Ok out /\ out ≡ₚ files /\
    Forall2 (segment_index task) out ns' /\ StronglySorted Z.le ns'.
Proof.
  intros Ht Hall.
  destruct (sorted_with_key_spec (segment_key task) files)
    as (out & Hout & Hperm & Hsorted).
  { eapply Forall2_Forall_l; [exact Hall|]. apply Forall_true.
    intros n x Hn. exists n. by apply segment_key_index. }
  assert (Hkeys : Forall (fun x => exists k, segment_key task x = Ok k) out).
  { rewrite Hperm. eapply Forall2_Forall_l; [exact Hall|]. apply Forall_true.
    intros n x Hn. exists n. by apply segment_key_index. }
  apply Forall_exists_Forall2_l in Hkeys as [ks Hks].
  exists out, ks. split; [exact Hout|]. split; [exact Hperm|]. split.
  - eapply Forall2_impl; [exact Hks|]. intros x k Hk. by apply segment_key_index.
  - by eapply keys_sorted.
Qed.

(** [C8] For a task name that is plain text in a pattern, a list with one
    file name that lacks [task-], the task name and a decimal digit makes
    [_get_segment] raise, and no list is returned: the search finds
    nothing in that name and [.group] is asked of [None], an
    [AttributeError], unless [int] has refused, with a [ValueError], a
    name of the list whose digits are more than 4300. *)
Theorem get_segment_raises_on_unmatched (files : list string) (task x : string) :
  Re.regex_literal task = true ->
  x ∈ files ->
  ~ has_segment_index task x ->
  (exists e, _get_segment files task = Raise e /\
             (e = AttributeError \/ e = ValueError)) /\
  (Forall (fun y => has_segment_index task y -> exists n, segment_index task y n)
     files ->
   _get_segment files task = Raise AttributeError).
Proof.
  intros Ht Hin Hno.
  destruct (rmapM_raise_some (segment_key task) files) as (e & He & Hex).
  { apply Exists_exists. exists x. split; [exact Hin|].
    exists AttributeError. by apply segment_key_no_index. }
  apply Exists_exists in Hex as (y & Hy & Hey).
  assert (Hcall : _get_segment files task = Raise e).
  { unfold _get_segment, sorted_with_key. by rewrite He. }
  split.
  - exists e. split; [exact Hcall|]. by apply (segment_key_raises task y).
  - intros Hshort. rewrite Hcall. f_equal.
    destruct (segment_key_raises task y e Ht Hey) as [->| ->]; [reflexivity|].
    exfalso. apply (segment_key_too_long _ _ Ht) in Hey as [Hhas Hnone].
    eapply Forall_forall in Hshort; [|exact Hy]. auto.
Qed.

(** What [_get_segment] returns, for a task name that is plain text. *)
Lemma get_segment_sorted (files : list string) (task : string) (out : list string) :
  Re.regex_literal task = true ->
  _get_segment files task = Ok out -> sorted_by_segment task files out.
Proof.
  intros Ht (ks & Hks & _ & Hperm & Hsorted)%sorted_with_key_inv.
  split; [exact Hperm|].
  assert (Hkeys : Forall (fun x => exists k, segment_key task x = Ok k) out).
  { rewrite Hperm. eapply Forall2_Forall_l; [exact Hks|]. apply Forall_true. eauto. }
  apply Forall_exists_Forall2_l in Hkeys as [ks' Hks'].
  exists ks'. split.
  - eapply Forall2_impl; [exact Hks'|]. intros x k Hk. by apply segment_key_index.
  - by eapply keys_sorted.
Qed.

(** ** Selecting the confound columns *)

Section ConfoundFacts.

Context {V : Type}.
Implicit Types (a : recarray V) (c : string).

Lemma field_is_Some a c : c ∈ field_names a -> is_Some (field a c).
Proof.
  unfold field_names. induction a as [|[c' col] a IH]; simpl.
  - intros H. by apply elem_of_nil in H.
  - intros H. destruct (String.eqb_spec c c') as [->|Hne]; [eauto|].
    apply elem_of_cons in H as [H|H]; [congruence | auto].
Qed.

Lemma field_column a c col : field a c = Some col -> col ∈ a.*2.
Proof.
  induction a as [|[c' col'] a IH]; simpl; [discriminate|].
  destruct (String.eqb c c').
  - intros [= ->]. apply elem_of_cons; auto.
  - intros H. apply elem_of_cons; auto.
Qed.

Lemma select_fields_spec (cs : list string) a :
  cs ⊆ field_names a ->
  exists out, select_fields cs a = Ok out /\ field_names out = cs /\
              (forall c, c ∈ cs -> field out c = field a c) /\
              out.*2 ⊆ a.*2.
Proof.
  unfold select_fields. induction cs as [|c cs IH]; intros Hsub; simpl.
  - exists []. split; [reflexivity|]. split; [reflexivity|].
    split; intros c H; by apply elem_of_nil in H.
  - destruct IH as (out & -> & Hnames & Hfield & Hcols).
    { intros c' Hc'. apply Hsub, elem_of_cons; auto. }
    destruct (field_is_Some a c) as [col Hcol].
    { apply Hsub, elem_of_cons; auto. }
    rewrite Hcol. simpl. exists ((c, col) :: out). split; [reflexivity|].
    split; [unfold field_names in *; rewrite fmap_cons; by f_equal|]. split.
    + intros c' Hc'. simpl. destruct (String.eqb_spec c' c) as [->|Hne]; [done|].
      apply elem_of_cons in Hc' as [?|?]; [congruence | auto].
    + intros x Hx. simpl in Hx. apply elem_of_cons in Hx as [->|Hx]; [|auto].
      eapply field_column; eauto.
Qed.

Lemma field_occurs a c col :
  field a c = Some col ->
  exists before after, a = before ++ (c, col) :: after /\ c ∉ field_names before.
Proof.
  unfold field_names. induction a as [|[c' col'] a IH]; simpl; [discriminate|].
  destruct (String.eqb_spec c c') as [->|Hne].
  - intros [= ->]. exists [], a. split; [reflexivity|]. apply not_elem_of_nil.
  - intros H. destruct (IH H) as (before & after & -> & Hno).
    exists ((c', col') :: before), after. split; [reflexivity|].
    rewrite fmap_cons. apply not_elem_of_cons. auto.
Qed.

(** Each field of a selection is a field of the array, name and column:
    the first of that name. *)
Lemma select_fields_occur (cs : list string) a out :
  select_fields cs a = Ok out ->
  Forall (fun p => exists before after,
            a = before ++ p :: after /\ p.1 ∉ field_names before) out.
Proof.
  unfold select_fields. intros H%rmapM_ok.
  induction H as [|c p cs out Hc _ IH]; constructor; [|exact IH].
  destruct (field a c) as [col|] eqn:Hcol; [|discriminate].
  injection Hc as <-. by apply field_occurs.
Qed.

End ConfoundFacts.

(** [C3] For a confound file that loads as a table holding at least the
    columns trans_x, trans_y, trans_z, rot_x, rot_y, rot_z, csf and
    white_matter, [_subset_confounds] returns the table of exactly these
    eight columns, in this order; each column returned is a column of the
    file, under the same name and with the same cells (the first column of
    that name), hence with as many rows. *)
Theorem subset_confounds_keeps_columns {V volume signals}
    (w : world V volume signals) (tsv : string) (table : recarray V) :
  recfromcsv w tsv = Ok table ->
  keep_confounds ⊆ field_names table ->
  exists out,
    _subset_confounds w tsv = (Ok out, [EvLoadConfounds tsv]) /\
    field_names out =
      ["trans_x"; "trans_y"; "trans_z"; "rot_x"; "rot_y"; "rot_z";
       "csf"; "white_matter"] /\
    Forall (fun p => exists before after,
              table = before ++ p :: after /\ p.1 ∉ field_names before) out /\
    (forall n : nat, Forall (fun col => length col = n) table.*2 ->
                     Forall (fun col => length col = n) out.*2).
Proof.
  intros Hload Hsub.
  destruct (select_fields_spec keep_confounds table Hsub)
    as (out & Hsel & Hnames & Hfield & Hcols).
  exists out. split; [|split; [exact Hnames|split]].
  - unfold _subset_confounds, bind, lift, emit, ret. simpl.
    rewrite Hload. simpl. rewrite Hsel. reflexivity.
  - by apply (select_fields_occur keep_confounds).
  - intros n Hn. apply Forall_forall. intros col Hcol.
    eapply Forall_forall in Hn; [exact Hn|]. by apply Hcols.
Qed.

(** ** The data dictionary *)

(** [C5] [create_data_dictionary] returns the task list bourne, wolf,
    figures, life and a dictionary with exactly these four keys; each task
    has its list of segment lengths (10, 17, 12 and 5 of them); bourne and
    wolf have the regressor and template strings without a run key-value,
    figures and life the [run-1] ones. *)
Theorem create_data_dictionary_value :
  create_data_dictionary.1 = ["bourne"; "wolf"; "figures"; "life"] /\
  dom create_data_dictionary.2 = ({[ "bourne"; "wolf"; "figures"; "life" ]} : gset string) /\
  create_data_dictionary.2 !! "bourne" = Some
    [("segment_lengths", PList [403; 405; 405; 405; 405; 405; 405; 405; 405; 380]);
     ("regr_str", PStr "desc-confounds_regressors.tsv");
     ("tmpl_str", PStr "space-MNI152NLin2009cAsym_desc-preproc_bold")] /\
  create_data_dictionary.2 !! "wolf" = Some
    [("segment_lengths", PList [406; 406; 406; 406; 406; 406; 406; 406; 406; 406;
                                406; 406; 406; 406; 406; 406; 498]);
     ("regr_str", PStr "desc-confounds_regressors.tsv");
     ("tmpl_str", PStr "space-MNI152NLin2009cAsym_desc-preproc_bold")] /\
  create_data_dictionary.2 !! "figures" = Some
    [("segment_lengths", PList [410; 410; 410; 409; 408; 410; 410; 409; 410; 409;
                                409; 373]);
     ("regr_str", PStr "run-1_desc-confounds_regressors.tsv");
     ("tmpl_str", PStr "run-1_space-MNI152NLin2009cAsym_desc-preproc_bold")] /\
  create_data_dictionary.2 !! "life" = Some
    [("segment_lengths", PList [406; 406; 406; 406; 384]);
     ("regr_str", PStr "run-1_desc-confounds_regressors.tsv");
     ("tmpl_str", PStr "run-1_space-MNI152NLin2009cAsym_desc-preproc_bold")] /\
  segment_count create_data_dictionary.2 <$> ["bourne"; "wolf"; "figures"; "life"]
    = [Some 10; Some 17; Some 12; Some 5]%nat.
Proof. repeat split; by vm_compute. Qed.

(** ** Computations and their events *)

Section MonadFacts.

Context {volume : Type}.
Implicit Types (log : list (event volume)).

Lemma bind_ok {A B} (m : M volume A) (k : A -> M volume B) b log :
  bind m k = (Ok b, log) ->
  exists a l1 l2, m = (Ok a, l1) /\ k a = (Ok b, l2) /\ log = l1 ++ l2.
Proof.
  unfold bind. destruct m as [[a|e] l1]; simpl; [|discriminate].
  destruct (k a) as [r l2] eqn:Hk. simpl. intros [= -> <-]. eauto 6.
Qed.

Lemma bind_ret_l {A B} (a : A) (k : A -> M volume B) : bind (ret a) k = k a.
Proof. unfold bind, ret. simpl. by destruct (k a). Qed.

Lemma bind_step {A B} (m : M volume A) (k : A -> M volume B) a l1 :
  m = (Ok a, l1) -> bind m k = ((k a).1, l1 ++ (k a).2).
Proof. intros ->. unfold bind. by destruct (k a). Qed.

Lemma bind_raise {A B} (m : M volume A) (k : A -> M volume B) e l1 :
  m = (Raise e, l1) -> bind m k = (Raise e, l1).
Proof. intros ->. reflexivity. Qed.

Lemma lift_ok {A} (r : result A) a log :
  lift (volume:=volume) r = (Ok a, log) -> r = Ok a /\ log = [].
Proof. unfold lift. intros [= -> <-]. auto. Qed.

Lemma read_global_ok {A} (x : option A) a log :
  read_global (volume:=volume) x = (Ok a, log) -> x = Some a /\ log = [].
Proof. destruct x; unfold read_global, ret, raise; intros [= <- <-] || intros [=]; auto. Qed.

Lemma read_local_ok {A} (x : option A) a log :
  read_local (volume:=volume) x = (Ok a, log) -> x = Some a /\ log = [].
Proof. destruct x; unfold read_local, ret, raise; intros [= <- <-] || intros [=]; auto. Qed.

End MonadFacts.

(** ** The cleaner *)

(** [C6] [_nifti_mask_movie] cleans a scan with a masker built on the given
    brain mask, standardizing, detrending, high-pass filtering at 0.01 Hz
    for a repetition time of 1.49 s, with the given confounds; the masker
    smooths with the given [smoothing_fwhm], and not at all when the
    argument is [None]; the result is the cleaned data put back in image space. *)
Theorem nifti_mask_movie_settings {V volume signals} (w : world V volume signals)
    (scan mask : string) (confounds : list (list V)) (fwhm : option Z) :
  exists masker,
    mask_img masker = mask /\
    standardize masker = true /\
    detrend masker = true /\
    high_pass masker = Some (1 # 100)%Q /\
    t_r masker = Some (149 # 100)%Q /\
    smoothing_fwhm masker = fwhm /\
    (smoothing_fwhm masker = None <-> fwhm = None) /\
    _nifti_mask_movie w scan mask confounds fwhm =
      (rbind (fit_transform w masker scan confounds)
         (fun cleaned => Ok (inverse_transform w masker cleaned)),
       [EvClean masker scan]).
Proof.
  exists (make_masker mask fwhm). repeat split; try done.
  unfold _nifti_mask_movie, bind, lift, emit, ret. simpl.
  destruct (fit_transform w _ scan confounds); reflexivity.
Qed.

(** ** Errors raised before any work *)

(** [C9] With [n_segments = None] the call fails on an unbound local name
    (the segment lists are assigned only when [n_segments] is given),
    before any confound file is loaded, any segment cleaned or any file
    written. *)
Theorem none_segments_unbound_local {V volume signals} (w : world V volume signals)
    (G : globals) (bold_files regressors : list string) (segment_lengths : list Z)
    (fwhm : option Z) :
  subset_and_process_movie10 w G bold_files regressors segment_lengths None fwhm
  = (Raise UnboundLocalError, []).
Proof.
  unfold subset_and_process_movie10, bind_segments.
  rewrite bind_ret_l. reflexivity.
Qed.

(** [C10] With [n_segments] greater than the number of BOLD files the call
    fails on its assertion before any confound file is loaded, any segment
    cleaned or any file written; with [n_segments] at most that number the
    assertion passes and the call goes on with the first [n_segments] files
    of each list. *)
Theorem segment_count_assertion {V volume signals} (w : world V volume signals)
    (G : globals) (bold_files regressors : list string) (segment_lengths : list Z)
    (n : Z) (fwhm : option Z) :
  (Z.of_nat (length bold_files) < n ->
   subset_and_process_movie10 w G bold_files regressors segment_lengths (Some n) fwhm
   = (Raise AssertionError, [])) /\
  (n <= Z.of_nat (length bold_files) ->
   subset_and_process_movie10 w G bold_files regressors segment_lengths (Some n) fwhm
   = process_bound_segments w G fwhm
       (Some (py_take n bold_files), Some (py_take n regressors))).
Proof.
  unfold subset_and_process_movie10, bind_segments. split; intros Hn.
  - destruct (Z.leb_spec n (Z.of_nat (length bold_files))); [lia|]. reflexivity.
  - destruct (Z.leb_spec n (Z.of_nat (length bold_files))); [|lia].
    apply bind_ret_l.
Qed.

(** ** The events of a call *)

Section LogFacts.

Context {volume : Type}.
Implicit Types (log : list (event volume)).

Lemma bind_eq {A B} (m : M volume A) (k : A -> M volume B) a l1 r l2 :
  m = (Ok a, l1) -> k a = (r, l2) -> bind m k = (r, l1 ++ l2).
Proof. intros -> Hk. unfold bind. by rewrite Hk. Qed.

Lemma saved_files_app log1 log2 :
  saved_files (log1 ++ log2) = saved_files log1 ++ saved_files log2.
Proof. apply omap_app. Qed.

Lemma printed_app log1 log2 : printed (log1 ++ log2) = printed log1 ++ printed log2.
Proof. apply omap_app. Qed.

Lemma saved_files_loads (rs : list string) :
  saved_files (volume:=volume) (EvLoadConfounds <$> rs) = [].
Proof. induction rs; [reflexivity | assumption]. Qed.

Lemma saved_files_cleans masker (ms : list string) :
  saved_files (volume:=volume) (EvClean masker <$> ms) = [].
Proof. induction ms; [reflexivity | assumption]. Qed.

Lemma printed_loads (rs : list string) :
  printed (volume:=volume) (EvLoadConfounds <$> rs) = [].
Proof. induction rs; [reflexivity | assumption]. Qed.

Lemma printed_cleans masker (ms : list string) :
  printed (volume:=volume) (EvClean masker <$> ms) = [].
Proof. induction ms; [reflexivity | assumption]. Qed.

Lemma for_each_ok {A} (l : list A) (body : A -> M volume unit) log :
  for_each l body = (Ok tt, log) ->
  exists turns, log = concat turns /\
                Forall2 (fun x evs => body x = (Ok tt, evs)) l turns.
Proof.
  revert log. induction l as [|x l IH]; intros log H; simpl in H.
  - injection H as <-. exists []. split; [reflexivity | constructor].
  - apply bind_ok in H as ([] & l1 & l2 & Hx & Hl & ->).
    destruct (IH _ Hl) as (turns & -> & Hturns).
    exists (l1 :: turns). split; [reflexivity | by constructor].
Qed.

(** A loop that stops on an exception has run a first part of its list. *)
Lemma for_each_raise {A} (l : list A) (body : A -> M volume unit) e log :
  for_each l body = (Raise e, log) ->
  exists done x rest turns evs,
    l = done ++ x :: rest /\ log = concat turns ++ evs /\
    Forall2 (fun y evs' => body y = (Ok tt, evs')) done turns /\
    body x = (Raise e, evs).
Proof.
  revert log. induction l as [|x l IH]; intros log H; simpl in H; [discriminate|].
  destruct (body x) as [[[]|e'] l1] eqn:Hx.
  - unfold bind in H.
    destruct (for_each l body) as [r l2] eqn:Hl. injection H as -> <-.
    destruct (IH _ eq_refl) as (done & y & rest & turns & evs & -> & -> & Hd & Hy).
    exists (x :: done), y, rest, (l1 :: turns), evs.
    split; [reflexivity|]. split; [simpl; by rewrite app_assoc|].
    split; [by constructor | assumption].
  - unfold bind in H. injection H as <- <-.
    exists [], x, l, [], l1.
    split; [reflexivity|]. split; [reflexivity|]. split; [constructor | assumption].
Qed.

End LogFacts.

Section PipelineFacts.

Context {V volume signals : Type}.
Variable w : world V volume signals.

Lemma subset_confounds_events (tsv : string) :
  (_subset_confounds w tsv).2 = [EvLoadConfounds tsv].
Proof.
  unfold _subset_confounds, bind, emit, lift, ret.
  destruct (recfromcsv w tsv) as [a|e]; [|reflexivity].
  destruct (select_fields keep_confounds a); reflexivity.
Qed.

Lemma nifti_mask_movie_events scan mask (confounds : list (list V)) fwhm :
  (_nifti_mask_movie w scan mask confounds fwhm).2
  = [EvClean (make_masker mask fwhm) scan].
Proof.
  unfold _nifti_mask_movie, bind, emit, lift, ret.
  destruct (fit_transform w _ scan confounds); reflexivity.
Qed.

Lemma pair_eta {A B} (p : A * B) a : p.1 = a -> p = (a, p.2).
Proof. destruct p. simpl. by intros ->. Qed.

Lemma load_all_ok (rs : list string) confs log :
  mapM_ev (_subset_confounds w) rs = (Ok confs, log) ->
  log = EvLoadConfounds <$> rs /\
  Forall2 (fun r c => (_subset_confounds w r).1 = Ok c) rs confs.
Proof.
  revert confs log. induction rs as [|r rs IH]; intros confs log H; simpl in H.
  - injection H as <- <-. split; [reflexivity | constructor].
  - apply bind_ok in H as (c & l1 & l2 & Hr & H & ->).
    apply bind_ok in H as (cs & l3 & l4 & Hrs & H & ->).
    injection H as <- <-. destruct (IH _ _ Hrs) as [-> Hcs].
    pose proof (subset_confounds_events r) as Hev. rewrite Hr in Hev. simpl in Hev.
    subst l1. split; [by rewrite app_nil_r|].
    constructor; [by rewrite Hr | assumption].
Qed.

Lemma load_all_intro (rs : list string) confs :
  Forall2 (fun r c => (_subset_confounds w r).1 = Ok c) rs confs ->
  mapM_ev (_subset_confounds w) rs = (Ok confs, EvLoadConfounds <$> rs).
Proof.
  induction 1 as [|r c rs confs Hr _ IH]; simpl; [reflexivity|].
  apply pair_eta in Hr. rewrite subset_confounds_events in Hr.
  rewrite (bind_eq _ _ c [EvLoadConfounds r] (Ok (c :: confs))
             (EvLoadConfounds <$> rs) Hr); [reflexivity|].
  rewrite (bind_eq _ _ confs (EvLoadConfounds <$> rs) (Ok (c :: confs)) [] IH);
    [by rewrite app_nil_r | reflexivity].
Qed.

Section Loop.

Variable G : globals.
Variable confounds : list (recarray V).
Variable fwhm : option Z.

Lemma process_segment_events n m seg log :
  process_segment w G confounds fwhm n m = (Ok seg, log) ->
  log = [EvClean (make_masker tpl_mask fwhm) m].
Proof.
  unfold process_segment. intros H.
  apply bind_ok in H as (conf & l1 & l2 & Hc & H & ->).
  apply lift_ok in Hc as [_ ->].
  apply bind_ok in H as (img & l3 & l4 & Hi & H & ->).
  apply bind_ok in H as (sl & l5 & l6 & Hs & H & ->).
  apply read_global_ok in Hs as [_ ->].
  apply bind_ok in H as (k & l7 & l8 & Hk & H & ->).
  apply lift_ok in Hk as [_ ->]. apply lift_ok in H as [_ ->].
  pose proof (nifti_mask_movie_events m tpl_mask (structured_to_unstructured conf) fwhm) as Hev.
  rewrite Hi in Hev. simpl in Hev. by subst l3.
Qed.

Lemma process_segments_events n ms segs log :
  process_segments w G confounds fwhm n ms = (Ok segs, log) ->
  log = EvClean (make_masker tpl_mask fwhm) <$> ms.
Proof.
  revert n segs log. induction ms as [|m ms IH]; intros n segs log H; simpl in H.
  - by injection H as <- <-.
  - apply bind_ok in H as (p & l1 & l2 & Hp & H & ->).
    apply bind_ok in H as (ps & l3 & l4 & Hps & H & ->).
    injection H as <- <-.
    apply process_segment_events in Hp as ->. apply IH in Hps as ->.
    by rewrite app_nil_r.
Qed.

End Loop.

End PipelineFacts.

Section CallFacts.

Context {V volume signals : Type}.
Variable w : world V volume signals.

Lemma nib_save_ok (img : image volume) fname log :
  nib_save w img fname = (Ok tt, log) ->
  writable w fname = true /\ log = [EvSave fname img].
Proof.
  unfold nib_save. destruct (writable w fname); [|discriminate].
  unfold emit. by intros [= <-].
Qed.

Lemma bind_segments_ok (bold_files regressors : list string) n_segments locals log :
  bind_segments (volume:=volume) bold_files regressors n_segments = (Ok locals, log) ->
  log = [] /\
  match n_segments with
  | Some n => n <= Z.of_nat (length bold_files) /\
              locals = (Some (py_take n bold_files), Some (py_take n regressors))
  | None => locals = (None, None)
  end.
Proof.
  unfold bind_segments. destruct n_segments as [n|].
  - destruct (Z.leb_spec n (Z.of_nat (length bold_files))); [|discriminate].
    unfold ret. by intros [= <- <-].
  - unfold ret. by intros [= <- <-].
Qed.

Lemma process_bound_segments_ok G fwhm locals fname log :
  process_bound_segments w G fwhm locals = (Ok fname, log) ->
  exists ms rs s t tmpl movie,
    locals = (Some ms, Some rs) /\
    g_s G = Some s /\ g_t G = Some t /\ g_tmpl G = Some tmpl /\
    fname = postproc_name s t tmpl fwhm /\
    writable w fname = true /\
    log = (EvLoadConfounds <$> rs)
          ++ (EvClean (make_masker tpl_mask fwhm) <$> ms)
          ++ [EvSave fname movie].
Proof.
  destruct locals as [oms ors]. unfold process_bound_segments. intros H.
  apply bind_ok in H as (rs & l1 & l2 & Hrs & H & ->).
  apply read_local_ok in Hrs as [-> ->].
  apply bind_ok in H as (confs & l3 & l4 & Hconfs & H & ->).
  apply load_all_ok in Hconfs as [-> _].
  apply bind_ok in H as (ms & l5 & l6 & Hms & H & ->).
  apply read_local_ok in Hms as [-> ->].
  apply bind_ok in H as (segs & l7 & l8 & Hsegs & H & ->).
  apply process_segments_events in Hsegs as ->.
  apply bind_ok in H as (s & l9 & l10 & Hs & H & ->).
  apply read_global_ok in Hs as [Hs ->].
  apply bind_ok in H as (t & l11 & l12 & Ht & H & ->).
  apply read_global_ok in Ht as [Ht ->].
  apply bind_ok in H as (tmpl & l13 & l14 & Htmpl & H & ->).
  apply read_global_ok in Htmpl as [Htmpl ->].
  apply bind_ok in H as (movie & l15 & l16 & Hmovie & H & ->).
  apply lift_ok in Hmovie as [_ ->].
  apply bind_ok in H as ([] & l17 & l18 & Hsave & H & ->).
  apply nib_save_ok in Hsave as [Hw ->].
  injection H as <- <-.
  exists ms, rs, s, t, tmpl, movie.
  repeat split; assumption.
Qed.

Lemma subset_and_process_ok G bold_files regressors segment_lengths n_segments
    fwhm fname log :
  subset_and_process_movie10 w G bold_files regressors segment_lengths n_segments fwhm
  = (Ok fname, log) ->
  exists n s t tmpl movie,
    n_segments = Some n /\ n <= Z.of_nat (length bold_files) /\
    g_s G = Some s /\ g_t G = Some t /\ g_tmpl G = Some tmpl /\
    fname = postproc_name s t tmpl fwhm /\
    writable w fname = true /\
    log = (EvLoadConfounds <$> py_take n regressors)
          ++ (EvClean (make_masker tpl_mask fwhm) <$> py_take n bold_files)
          ++ [EvSave fname movie].
Proof.
  unfold subset_and_process_movie10. intros H.
  apply bind_ok in H as (locals & l1 & l2 & Hlocals & H & ->).
  apply bind_segments_ok in Hlocals as [-> Hlocals].
  apply process_bound_segments_ok in H
    as (ms & rs & s & t & tmpl & movie & Heq & Hs & Ht & Htmpl & Hname & Hw & ->).
  destruct n_segments as [n|]; [|subst; discriminate].
  destruct Hlocals as [Hn ->]. injection Heq as <- <-.
  exists n, s, t, tmpl, movie. repeat split; assumption || reflexivity.
Qed.

End CallFacts.

(** ** The output file *)

(** [C4] A call of [subset_and_process_movie10] that completes writes
    exactly one scan file; its name is the subject/task template file name
    [{s}/{s}_task-{t}_{tmpl}.nii.gz] with [desc-preproc] replaced by
    [desc-fwhm] followed by the [fwhm] argument, and the call returns this
    name. *)
Theorem one_output_file_named_from_template {V volume signals}
    (w : world V volume signals) (G : globals) (bold_files regressors : list string)
    (segment_lengths : list Z) (n_segments fwhm : option Z) (fname : string)
    (log : list (event volume)) :
  subset_and_process_movie10 w G bold_files regressors segment_lengths n_segments fwhm
  = (Ok fname, log) ->
  exists s t tmpl movie,
    g_s G = Some s /\ g_t G = Some t /\ g_tmpl G = Some tmpl /\
    fname = Str.replace "desc-preproc"
              ("desc-fwhm" +:+ match fwhm with
                               | Some f => Str.str_of_int f
                               | None => "None"
                               end)
              (s +:+ "/" +:+ s +:+ "_task-" +:+ t +:+ "_" +:+ tmpl +:+ ".nii.gz") /\
    saved_files log = [(fname, movie)].
Proof.
  intros H. apply subset_and_process_ok in H
    as (n & s & t & tmpl & movie & _ & _ & Hs & Ht & Htmpl & Hname & _ & ->).
  exists s, t, tmpl, movie. repeat split; try assumption.
  rewrite !saved_files_app, saved_files_loads, saved_files_cleans. reflexivity.
Qed.

Lemma one_output_file_named_from_template_witness :
  exists s t tmpl movie,
    g_s (Demo.bourne_globals [3; 5]) = Some s /\
    g_t (Demo.bourne_globals [3; 5]) = Some t /\
    g_tmpl (Demo.bourne_globals [3; 5]) = Some tmpl /\
    "sub-01/sub-01_task-bourne_space-MNI152NLin2009cAsym_desc-fwhm6_bold.nii.gz"
    = Str.replace "desc-preproc" ("desc-fwhm" +:+ Str.str_of_int 6)
        (s +:+ "/" +:+ s +:+ "_task-" +:+ t +:+ "_" +:+ tmpl +:+ ".nii.gz") /\
    saved_files
      (subset_and_process_movie10 Demo.w (Demo.bourne_globals [3; 5])
         Demo.bourne_bold Demo.bourne_confounds [3; 5] (Some 2) (Some 6)).2
    = [("sub-01/sub-01_task-bourne_space-MNI152NLin2009cAsym_desc-fwhm6_bold.nii.gz",
        movie)].
Proof.
  apply (one_output_file_named_from_template Demo.w (Demo.bourne_globals [3; 5])
           Demo.bourne_bold Demo.bourne_confounds [3; 5] (Some 2) (Some 6)).
  vm_compute. reflexivity.
Defined.

(** ** Truncation to the segment lengths *)

Lemma py_take_nonneg {A} (k : Z) (l : list A) :
  0 <= k -> py_take k l = take (Z.to_nat k) l.
Proof. unfold py_take. intros Hk. by destruct (Z.leb_spec 0 k); [|lia]. Qed.

Lemma slicer_time_ok {volume} (img : image volume) (k : Z) :
  0 < k <= Z.of_nat (length img) ->
  slicer_time img k = Ok (py_take k img) /\ Z.of_nat (length (py_take k img)) = k.
Proof.
  intros Hk. assert (Hlen : Z.of_nat (length (py_take k img)) = k).
  { rewrite py_take_nonneg by lia. rewrite length_take_le by lia. lia. }
  split; [|exact Hlen]. unfold slicer_time.
  destruct (py_take k img); [simpl in Hlen; lia | reflexivity].
Qed.

Lemma truncated_lengths {volume} (imgs : list (image volume)) (ks : list Z) :
  Forall2 (fun img k => 0 < k <= Z.of_nat (length img)) imgs ks ->
  Forall2 (fun seg k => Z.of_nat (length seg) = k)
    (zip_with (fun img k => py_take k img) imgs ks) ks /\
  Z.of_nat (length (concat (zip_with (fun img k => py_take k img) imgs ks))) = sum_Z ks.
Proof.
  induction 1 as [|img k imgs ks Hk _ [IH1 IH2]]; simpl.
  - split; [constructor | reflexivity].
  - destruct (slicer_time_ok img k Hk) as [_ Hlen]. split; [by constructor|].
    rewrite length_app. lia.
Qed.

Section Truncation.

Context {V volume signals : Type}.
Variable w : world V volume signals.
Variable G : globals.
Variable fwhm : option Z.
Variable sl : list Z.
Hypothesis Hsl : g_seg_len G = Some sl.

Lemma cleaned_segment_ok m r (img : image volume) :
  cleaned_segment w fwhm (m, r) = Ok img ->
  exists conf,
    (_subset_confounds w r).1 = Ok conf /\
    (_nifti_mask_movie w m tpl_mask (structured_to_unstructured conf) fwhm).1 = Ok img.
Proof.
  unfold cleaned_segment, bind. simpl.
  destruct (_subset_confounds w r) as [[conf|e] l1]; simpl; [|discriminate].
  destruct (_nifti_mask_movie w m tpl_mask _ fwhm) as [r' l2] eqn:Hm. simpl.
  intros ->. exists conf. by rewrite Hm.
Qed.

Lemma process_segment_intro confs n m conf (img : image volume) k :
  confs !! n = Some conf ->
  (_nifti_mask_movie w m tpl_mask (structured_to_unstructured conf) fwhm).1 = Ok img ->
  sl !! n = Some k ->
  0 < k <= Z.of_nat (length img) ->
  process_segment w G confs fwhm n m
  = (Ok (py_take k img), [EvClean (make_masker tpl_mask fwhm) m]).
Proof.
  intros Hconf Himg Hk Hlen. apply pair_eta in Himg.
  rewrite nifti_mask_movie_events in Himg.
  unfold process_segment, py_index. rewrite Hconf, Hsl.
  change (lift (Ok conf)) with (ret (volume:=volume) conf). rewrite bind_ret_l.
  rewrite (bind_eq _ _ img [EvClean (make_masker tpl_mask fwhm) m]
             (Ok (py_take k img)) [] Himg); [reflexivity|].
  unfold read_global. rewrite bind_ret_l, Hk.
  change (lift (Ok k)) with (ret (volume:=volume) k). rewrite bind_ret_l.
  destruct (slicer_time_ok img k Hlen) as [-> _]. reflexivity.
Qed.

Lemma process_segments_intro confs ms : forall i (imgs : list (image volume)),
  length imgs = length ms ->
  (forall j m img, ms !! j = Some m -> imgs !! j = Some img ->
     exists conf k,
       confs !! (i + j)%nat = Some conf /\
       (_nifti_mask_movie w m tpl_mask (structured_to_unstructured conf) fwhm).1
         = Ok img /\
       sl !! (i + j)%nat = Some k /\ 0 < k <= Z.of_nat (length img)) ->
  process_segments w G confs fwhm i ms
  = (Ok (zip_with (fun img k => py_take k img) imgs (drop i sl)),
     EvClean (make_masker tpl_mask fwhm) <$> ms).
Proof.
  induction ms as [|m ms IH]; intros i imgs Hlen H.
  - destruct imgs; [reflexivity | discriminate].
  - destruct imgs as [|img imgs]; [discriminate|].
    destruct (H 0%nat m img eq_refl eq_refl) as (conf & k & Hc & Hi & Hk & Hle).
    rewrite Nat.add_0_r in Hc, Hk.
    rewrite (drop_S _ _ _ Hk). simpl.
    rewrite (bind_eq _ _ _ _ (Ok (py_take k img
               :: zip_with (fun img k => py_take k img) imgs (drop (S i) sl)))
               (EvClean (make_masker tpl_mask fwhm) <$> ms)
               (process_segment_intro confs i m conf img k Hc Hi Hk Hle));
      [reflexivity|].
    rewrite (bind_eq _ _ _ _ (Ok (py_take k img
               :: zip_with (fun img k => py_take k img) imgs (drop (S i) sl))) []
               (IH (S i) imgs ltac:(simpl in Hlen; lia) ltac:(
                  intros j m' img' Hm' Hi'; rewrite Nat.add_succ_l, <- Nat.add_succ_r;
                  exact (H (S j) m' img' Hm' Hi'))));
      [by rewrite app_nil_r | reflexivity].
Qed.

End Truncation.

Lemma concat_imgs_ok {volume} (segs : list (image volume)) :
  (0 < length segs)%nat -> concat_imgs segs = Ok (concat segs).
Proof. destruct segs; simpl; [lia | reflexivity]. Qed.

(** [C1] When the module-level [seg_len] that the loop reads is the list
    passed as [segment_lengths], [n_segments] is between 1 and the number
    of BOLD files, there are as many confound files, and each of the first
    [n_segments] cleaned segments has at least its (positive) segment
    length, then the call completes, the n-th cleaned segment is cut to
    exactly [segment_lengths[n]] volumes before concatenation, and the file
    written has the sum of the first [n_segments] segment lengths. *)
Theorem segments_truncated_to_lengths {V volume signals}
    (w : world V volume signals) (G : globals) (bold_files regressors : list string)
    (segment_lengths : list Z) (n : Z) (fwhm : option Z) (s t tmpl : string)
    (imgs : list (image volume)) :
  g_seg_len G = Some segment_lengths ->
  g_s G = Some s -> g_t G = Some t -> g_tmpl G = Some tmpl ->
  0 < n <= Z.of_nat (length bold_files) ->
  n <= Z.of_nat (length regressors) ->
  rmapM (cleaned_segment w fwhm) (zip (py_take n bold_files) (py_take n regressors))
    = Ok imgs ->
  Forall2 (fun img k => 0 < k <= Z.of_nat (length img)) imgs
    (py_take n segment_lengths) ->
  writable w (postproc_name s t tmpl fwhm) = true ->
  exists log,
    subset_and_process_movie10 w G bold_files regressors segment_lengths (Some n) fwhm
      = (Ok (postproc_name s t tmpl fwhm), log) /\
    saved_files log =
      [(postproc_name s t tmpl fwhm,
        concat (zip_with (fun img k => py_take k img) imgs segment_lengths))] /\
    Forall2 (fun seg k => Z.of_nat (length seg) = k)
      (zip_with (fun img k => py_take k img) imgs segment_lengths)
      (py_take n segment_lengths) /\
    Z.of_nat (length (concat (zip_with (fun img k => py_take k img) imgs segment_lengths)))
      = sum_Z (py_take n segment_lengths).
Proof.
  intros Hsl Hs Ht Htmpl Hn Hnr Himgs Hlens Hw.
  rewrite !py_take_nonneg in * by lia.
  set (N := Z.to_nat n) in *.
  set (ms := take N bold_files) in *. set (rs := take N regressors) in *.
  assert (Hms : length ms = N) by (subst ms; rewrite length_take_le; lia).
  assert (Hrs : length rs = N) by (subst rs; rewrite length_take_le; lia).
  apply rmapM_ok in Himgs.
  assert (Hlen : length imgs = N).
  { erewrite <- Forall2_length by exact Himgs. rewrite length_zip. lia. }
  (* the segments, as lists *)
  assert (Hsegs : zip_with (fun img k => py_take k img) imgs (take N segment_lengths)
                  = zip_with (fun img k => py_take k img) imgs segment_lengths).
  { rewrite <- Hlen. apply zip_with_take_r. }
  destruct (truncated_lengths imgs (take N segment_lengths) Hlens) as [Hl1 Hl2].
  rewrite Hsegs in Hl1, Hl2.
  (* the confound tables *)
  assert (Hall : Forall (fun r => exists c, (_subset_confounds w r).1 = Ok c) rs).
  { apply Forall_lookup. intros j r Hr.
    destruct (lookup_lt_is_Some_2 ms j) as [m Hm].
    { apply lookup_lt_Some in Hr. lia. }
    destruct (Forall2_lookup_l _ _ _ j (m, r) Himgs) as (img & _ & Hc).
    { by apply lookup_zip_Some. }
    apply cleaned_segment_ok in Hc as (c & Hc & _). eauto. }
  apply Forall_exists_Forall2_l in Hall as [confs Hconfs].
  pose proof (load_all_intro w rs confs Hconfs) as Hload.
  (* the loop *)
  assert (Hloop : process_segments w G confs fwhm 0 ms
                  = (Ok (zip_with (fun img k => py_take k img) imgs segment_lengths),
                     EvClean (make_masker tpl_mask fwhm) <$> ms)).
  { rewrite <- (drop_0 segment_lengths) at 1.
    apply process_segments_intro; [exact Hsl | lia |].
    intros j m img Hm Hi. simpl.
    destruct (lookup_lt_is_Some_2 rs j) as [r Hr].
    { apply lookup_lt_Some in Hm. lia. }
    pose proof (Forall2_lookup_lr _ _ _ j (m, r) img Himgs
                  (proj2 (lookup_zip_Some _ _ _ _ _) (conj Hm Hr)) Hi) as Hc.
    apply cleaned_segment_ok in Hc as (c & Hc & Hclean).
    destruct (Forall2_lookup_l _ _ _ j r Hconfs Hr) as (c' & Hc' & Hcc).
    assert (c' = c) as -> by congruence.
    destruct (Forall2_lookup_l _ _ _ j img Hlens Hi) as (k & Hk & Hkk).
    apply lookup_take_Some in Hk as [Hk _].
    exists c, k. auto. }
  assert (Hpos : (0 < length (zip_with (fun img k => py_take k img) imgs
                               segment_lengths))%nat).
  { pose proof (Forall2_length _ _ _ Hl1) as H1.
    pose proof (Forall2_length _ _ _ Hlens) as H2.
    unfold image in *. rewrite H1, <- H2, Hlen. unfold N. lia. }
  (* the call *)
  eexists. split; [|split; [|split; [exact Hl1 | exact Hl2]]].
  - unfold subset_and_process_movie10, bind_segments.
    destruct (Z.leb_spec n (Z.of_nat (length bold_files))) as [_|]; [|lia].
    rewrite bind_ret_l. rewrite !py_take_nonneg by lia. fold N. fold ms. fold rs.
    unfold process_bound_segments, read_local.
    rewrite bind_ret_l, (bind_step _ _ _ _ Hload), bind_ret_l.
    rewrite (bind_step _ _ _ _ Hloop). rewrite Hs, Ht, Htmpl.
    unfold read_global. rewrite !bind_ret_l.
    rewrite concat_imgs_ok by exact Hpos.
    change (lift (Ok ?x)) with (ret (volume:=volume) x). rewrite bind_ret_l.
    unfold nib_save. rewrite Hw. unfold bind, emit, ret. simpl. reflexivity.
  - rewrite !saved_files_app, saved_files_loads, saved_files_cleans. reflexivity.
Qed.

Lemma segments_truncated_to_lengths_witness :
  exists log,
    subset_and_process_movie10 Demo.w (Demo.bourne_globals [3; 5])
      Demo.bourne_bold Demo.bourne_confounds [3; 5] (Some 2) (Some 6)
    = (Ok (postproc_name "sub-01" "bourne"
             "space-MNI152NLin2009cAsym_desc-preproc_bold" (Some 6)), log) /\
    saved_files log =
      [(postproc_name "sub-01" "bourne"
          "space-MNI152NLin2009cAsym_desc-preproc_bold" (Some 6),
        concat (zip_with (fun img k => py_take k img)
                  [[1; 2; 3; 4; 5; 6; 7; 8]; [1; 2; 3; 4; 5; 6; 7; 8]] [3; 5]))] /\
    Forall2 (fun seg k => Z.of_nat (length seg) = k)
      (zip_with (fun img k => py_take k img)
         [[1; 2; 3; 4; 5; 6; 7; 8]; [1; 2; 3; 4; 5; 6; 7; 8]] [3; 5])
      (py_take 2 [3; 5]) /\
    Z.of_nat (length (concat (zip_with (fun img k => py_take k img)
                                [[1; 2; 3; 4; 5; 6; 7; 8]; [1; 2; 3; 4; 5; 6; 7; 8]]
                                [3; 5])))
      = sum_Z (py_take 2 [3; 5]).
Proof.
  apply (segments_truncated_to_lengths Demo.w (Demo.bourne_globals [3; 5])
           Demo.bourne_bold Demo.bourne_confounds [3; 5] 2 (Some 6)
           "sub-01" "bourne" "space-MNI152NLin2009cAsym_desc-preproc_bold").
  - reflexivity.
  - reflexivity.
  - reflexivity.
  - reflexivity.
  - simpl. lia.
  - simpl. lia.
  - vm_compute. reflexivity.
  - repeat constructor; simpl; lia.
  - reflexivity.
Defined.

(** The claim [C1] as stated fails when a cleaned segment is shorter than
    its segment length: with the lengths 403 and 405 of the first two
    segments of bourne (and the module-level [seg_len] equal to the list
    passed), two BOLD files and [n_segments = 2], the call completes, the
    scans clean to 8 volumes each, and the file written has 16 volumes, not
    403 + 405. *)
Lemma short_segment_not_truncated_to_length :
  (2 <= Z.of_nat (length Demo.bourne_bold)) /\
  g_seg_len (Demo.bourne_globals [403; 405]) = Some [403; 405] /\
  (subset_and_process_movie10 Demo.w (Demo.bourne_globals [403; 405])
     Demo.bourne_bold Demo.bourne_confounds [403; 405] (Some 2) (Some 6)).1
  = Ok "sub-01/sub-01_task-bourne_space-MNI152NLin2009cAsym_desc-fwhm6_bold.nii.gz" /\
  (fun f => Z.of_nat (length f.2)) <$>
    saved_files
      (subset_and_process_movie10 Demo.w (Demo.bourne_globals [403; 405])
         Demo.bourne_bold Demo.bourne_confounds [403; 405] (Some 2) (Some 6)).2
  = [16] /\
  sum_Z (py_take 2 [403; 405]) = 808.
Proof. repeat split; by vm_compute. Qed.

Lemma get_segment_sorted_permutation_witness :
  exists out ns',
    _get_segment ["a_task-life10_x"; "a_task-life9_x";
                  "a_task-life" +:+ Demo.arabic_three +:+ "_x"] "life" = Ok out /\
    out ≡ₚ ["a_task-life10_x"; "a_task-life9_x";
            "a_task-life" +:+ Demo.arabic_three +:+ "_x"] /\
    Forall2 (segment_index "life") out ns' /\ StronglySorted Z.le ns'.
Proof.
  apply (get_segment_sorted_permutation
           ["a_task-life10_x"; "a_task-life9_x";
            "a_task-life" +:+ Demo.arabic_three +:+ "_x"] "life" [10; 9; 3]).
  - reflexivity.
  - repeat constructor; apply (proj2 (segment_index_search _ _ _)); eexists;
      (split; [vm_compute; reflexivity|]); (split; [simpl; lia | reflexivity]).
Defined.

(** The claim [C2] as stated fails in two ways.  A name whose segment
    index has 4301 digits contains [task-], the task name and a digit, and
    the call raises ([int] refuses the digits) and returns nothing.  And a
    task name is read as a pattern: for the task [li.e], where [.] stands
    for any character, the key of a name is taken after the first match of
    the pattern, here after [task-lixe], so the two names below come out
    with the numbers after [task-li.e] decreasing, 3 before 1. *)
Lemma get_segment_fails_or_misorders :
  has_segment_index "life" Demo.long_name /\
  _get_segment [Demo.long_name] "life" = Raise ValueError /\
  segment_index "li.e" "x_task-lixe5_task-li.e1" 1 /\
  segment_index "li.e" "x_task-li.e3" 3 /\
  _get_segment ["x_task-lixe5_task-li.e1"; "x_task-li.e3"] "li.e"
  = Ok ["x_task-li.e3"; "x_task-lixe5_task-li.e1"].
Proof.
  split; [|split; [|split; [|split]]].
  - apply has_segment_index_search. vm_compute. eauto.
  - by vm_compute.
  - apply segment_index_search. eexists.
    split; [vm_compute; reflexivity|]. split; [simpl; lia | reflexivity].
  - apply segment_index_search. eexists.
    split; [vm_compute; reflexivity|]. split; [simpl; lia | reflexivity].
  - by vm_compute.
Qed.

Lemma get_segment_raises_on_unmatched_witness :
  (exists e, _get_segment ["a_task-life10_x"; "a_task-lif9_x"] "life" = Raise e /\
             (e = AttributeError \/ e = ValueError)) /\
  (Forall (fun y => has_segment_index "life" y -> exists n, segment_index "life" y n)
     ["a_task-life10_x"; "a_task-lif9_x"] ->
   _get_segment ["a_task-life10_x"; "a_task-lif9_x"] "life" = Raise AttributeError).
Proof.
  apply (get_segment_raises_on_unmatched
           ["a_task-life10_x"; "a_task-lif9_x"] "life" "a_task-lif9_x").
  - reflexivity.
  - repeat constructor.
  - intros H%has_segment_index_search. vm_compute in H. by destruct H.
Defined.

(** The claim [C8] as stated fails for a task name that is not plain text
    in a pattern: for the task [li.e] the name below does not contain
    [task-li.e] followed by a digit, yet the pattern matches it ([.]
    stands for the [x]) and the call returns the list. *)
Lemma get_segment_returns_on_pattern_match :
  ~ has_segment_index "li.e" "a_task-lixe1_x" /\
  _get_segment ["a_task-lixe1_x"] "li.e" = Ok ["a_task-lixe1_x"].
Proof.
  split.
  - intros H%has_segment_index_search. vm_compute in H. by destruct H.
  - by vm_compute.
Qed.

Lemma subset_confounds_keeps_columns_witness :
  exists out,
    _subset_confounds Demo.w (Demo.confound_name "sub-01" "bourne" "01")
    = (Ok out, [EvLoadConfounds (Demo.confound_name "sub-01" "bourne" "01")]) /\
    field_names out =
      ["trans_x"; "trans_y"; "trans_z"; "rot_x"; "rot_y"; "rot_z";
       "csf"; "white_matter"] /\
    Forall (fun p => exists before after,
              Demo.table = before ++ p :: after /\ p.1 ∉ field_names before) out /\
    (forall n : nat, Forall (fun col => length col = n) Demo.table.*2 ->
                     Forall (fun col => length col = n) out.*2).
Proof.
  apply (subset_confounds_keeps_columns Demo.w
           (Demo.confound_name "sub-01" "bourne" "01") Demo.table).
  - vm_compute. reflexivity.
  - apply (bool_decide_unpack _). vm_compute. exact I.
Defined.

(** ** What a completed call has written *)

Lemma rmapM_intro {A B} (f : A -> result B) (l : list A) (ys : list B) :
  Forall2 (fun x y => f x = Ok y) l ys -> rmapM f l = Ok ys.
Proof.
  induction 1 as [|x y l ys Hx _ IH]; simpl; [reflexivity|].
  by rewrite Hx, IH.
Qed.

Section CallImages.

Context {V volume signals : Type}.
Variable w : world V volume signals.

Lemma cleaned_segment_intro fwhm m r conf (img : image volume) :
  (_subset_confounds w r).1 = Ok conf ->
  (_nifti_mask_movie w m tpl_mask (structured_to_unstructured conf) fwhm).1 = Ok img ->
  cleaned_segment w fwhm (m, r) = Ok img.
Proof.
  intros Hc Hi. unfold cleaned_segment, bind. simpl.
  destruct (_subset_confounds w r) as [rc l1]. simpl in Hc. subst rc.
  destruct (_nifti_mask_movie w m tpl_mask _ fwhm) as [ri l2]. simpl in Hi. by subst ri.
Qed.

Section Loop.

Variable G : globals.
Variable confounds : list (recarray V).
Variable fwhm : option Z.

Lemma process_segment_image n m (seg : image volume) log :
  process_segment w G confounds fwhm n m = (Ok seg, log) ->
  exists conf img sl k,
    confounds !! n = Some conf /\
    (_nifti_mask_movie w m tpl_mask (structured_to_unstructured conf) fwhm).1
      = Ok img /\
    g_seg_len G = Some sl /\ sl !! n = Some k /\ seg = py_take k img.
Proof.
  unfold process_segment. intros H.
  apply bind_ok in H as (conf & l1 & l2 & Hc & H & ->).
  apply lift_ok in Hc as [Hc _].
  apply bind_ok in H as (img & l3 & l4 & Hi & H & ->).
  apply bind_ok in H as (sl & l5 & l6 & Hs & H & ->).
  apply read_global_ok in Hs as [Hs _].
  apply bind_ok in H as (k & l7 & l8 & Hk & H & ->).
  apply lift_ok in Hk as [Hk _]. apply lift_ok in H as [H _].
  exists conf, img, sl, k.
  unfold py_index in Hc, Hk.
  destruct (confounds !! n) as [conf'|]; [|discriminate]. injection Hc as ->.
  destruct (sl !! n) as [k'|]; [|discriminate]. injection Hk as ->.
  split; [reflexivity|]. split; [by rewrite Hi|]. split; [exact Hs|].
  split; [reflexivity|].
  unfold slicer_time in H. destruct (py_take k img); [discriminate|]. congruence.
Qed.

Lemma process_segments_images ms : forall n (segs : list (image volume)) log,
  process_segments w G confounds fwhm n ms = (Ok segs, log) ->
  exists imgs,
    length imgs = length ms /\ length segs = length ms /\
    (forall j m img, ms !! j = Some m -> imgs !! j = Some img ->
       exists conf,
         confounds !! (n + j)%nat = Some conf /\
         (_nifti_mask_movie w m tpl_mask (structured_to_unstructured conf) fwhm).1
           = Ok img) /\
    (forall sl, g_seg_len G = Some sl ->
       segs = zip_with (fun img k => py_take k img) imgs (drop n sl)) /\
    (ms <> [] -> is_Some (g_seg_len G)).
Proof.
  induction ms as [|m ms IH]; intros n segs log H; simpl in H.
  - injection H as <- <-. exists []. split; [reflexivity|]. split; [reflexivity|].
    split; [|done]. intros j m img Hm. by rewrite lookup_nil in Hm.
  - apply bind_ok in H as (p & l1 & l2 & Hp & H & ->).
    apply bind_ok in H as (ps & l3 & l4 & Hps & H & ->).
    injection H as <- <-.
    apply process_segment_image in Hp as (conf & img & sl & k & Hc & Hi & Hs & Hk & ->).
    destruct (IH _ _ _ Hps) as (imgs & Hlen & Hlen' & Himgs & Hsegs & _).
    exists (img :: imgs). split; [simpl; by rewrite Hlen|].
    split; [simpl; by rewrite Hlen'|]. split; [|split; [|eauto]].
    + intros [|j] m' img' Hm' Hi'; simpl in Hm', Hi'.
      * injection Hm' as <-. injection Hi' as <-.
        exists conf. rewrite Nat.add_0_r. done.
      * rewrite <- Nat.add_succ_comm. by apply Himgs.
    + intros sl' Hs'. assert (sl' = sl) as -> by congruence.
      rewrite (drop_S _ _ _ Hk). simpl. f_equal. by apply Hsegs.
Qed.

End Loop.

(** A call that completes has loaded the first [n_segments] confound
    files, cleaned the first [n_segments] scans, each with the table of
    the file of the same rank, cut each cleaned image by the module-level
    [seg_len], and written the pieces one after the other. *)
Lemma call_images G bold_files regressors lengths n fwhm fname
    (log : list (event volume)) :
  subset_and_process_movie10 w G bold_files regressors lengths (Some n) fwhm
  = (Ok fname, log) ->
  exists s t tmpl sl imgs,
    g_s G = Some s /\ g_t G = Some t /\ g_tmpl G = Some tmpl /\
    g_seg_len G = Some sl /\
    fname = postproc_name s t tmpl fwhm /\
    n <= Z.of_nat (length bold_files) /\
    rmapM (cleaned_segment w fwhm) (zip (py_take n bold_files) (py_take n regressors))
      = Ok imgs /\
    length imgs = length (py_take n bold_files) /\
    log = (EvLoadConfounds <$> py_take n regressors)
          ++ (EvClean (make_masker tpl_mask fwhm) <$> py_take n bold_files)
          ++ [EvSave fname (concat (zip_with (fun img k => py_take k img) imgs sl))].
Proof.
  unfold subset_and_process_movie10. intros H.
  apply bind_ok in H as (locals & k1 & k2 & Hlocals & H & ->).
  apply bind_segments_ok in Hlocals as [-> [Hn ->]].
  set (ms := py_take n bold_files) in *. set (rs := py_take n regressors) in *.
  unfold process_bound_segments in H.
  apply bind_ok in H as (rs' & l1 & l2 & Hrs & H & ->).
  apply read_local_ok in Hrs as [[= <-] ->].
  apply bind_ok in H as (confs & l3 & l4 & Hconfs & H & ->).
  apply load_all_ok in Hconfs as [-> Hconfs].
  apply bind_ok in H as (ms' & l5 & l6 & Hms & H & ->).
  apply read_local_ok in Hms as [[= <-] ->].
  apply bind_ok in H as (segs & l7 & l8 & Hsegs & H & ->).
  pose proof (process_segments_events w G confs fwhm 0 ms segs _ Hsegs) as ->.
  apply process_segments_images in Hsegs as (imgs & Hlen & Hlen' & Himgs & Hcut & Hbound).
  apply bind_ok in H as (s & l9 & l10 & Hs & H & ->).
  apply read_global_ok in Hs as [Hs ->].
  apply bind_ok in H as (t & l11 & l12 & Ht & H & ->).
  apply read_global_ok in Ht as [Ht ->].
  apply bind_ok in H as (tmpl & l13 & l14 & Htmpl & H & ->).
  apply read_global_ok in Htmpl as [Htmpl ->].
  apply bind_ok in H as (movie & l15 & l16 & Hmovie & H & ->).
  apply lift_ok in Hmovie as [Hmovie ->].
  apply bind_ok in H as ([] & l17 & l18 & Hsave & H & ->).
  apply nib_save_ok in Hsave as [Hw ->].
  injection H as <-.
  (* at least one segment, so the lengths were read *)
  assert (Hne : ms <> []).
  { intros Hnil. rewrite Hnil in Hlen'. destruct segs; [discriminate | discriminate]. }
  destruct (Hbound Hne) as [sl Hsl].
  rewrite (Hcut sl Hsl), drop_0 in Hmovie.
  assert (movie = concat (zip_with (fun img k => py_take k img) imgs sl)) as ->.
  { unfold concat_imgs in Hmovie.
    destruct (zip_with (fun img k => py_take k img) imgs sl); [discriminate|].
    congruence. }
  (* every scan was cleaned with the table of the confound file of its rank *)
  assert (Hclean : Forall2 (fun mr img => cleaned_segment w fwhm mr = Ok img)
                     (zip ms rs) imgs).
  { assert (Hle : (length ms <= length rs)%nat).
    { destruct (decide (length ms = 0%nat)) as [->|Hpos]; [lia|].
      destruct (lookup_lt_is_Some_2 ms (length ms - 1)) as [m Hm]; [lia|].
      destruct (lookup_lt_is_Some_2 imgs (length ms - 1)) as [img Hi]; [lia|].
      destruct (Himgs _ _ _ Hm Hi) as (conf & Hconf & _).
      apply lookup_lt_Some in Hconf. apply Forall2_length in Hconfs. simpl in Hconf. lia. }
    apply Forall2_same_length_lookup.
    split; [rewrite length_zip; unfold image in *; lia|].
    intros j [m r] img Hmr Hi. apply lookup_zip_Some in Hmr as [Hm Hr].
    destruct (Himgs _ _ _ Hm Hi) as (conf & Hconf & Hc). simpl in Hconf.
    destruct (Forall2_lookup_l _ _ _ _ _ Hconfs Hr) as (conf' & Hconf' & Hrc).
    assert (conf' = conf) as -> by congruence.
    by eapply cleaned_segment_intro. }
  exists s, t, tmpl, sl, imgs.
  split; [exact Hs|]. split; [exact Ht|]. split; [exact Htmpl|]. split; [exact Hsl|].
  split; [reflexivity|]. split; [exact Hn|].
  split; [by apply rmapM_intro|]. split; [exact Hlen|].
  subst l18. reflexivity.
Qed.

End CallImages.

(** ** The main program *)

Lemma tasks_value : create_data_dictionary.1 = ["bourne"; "wolf"; "figures"; "life"].
Proof. reflexivity. Qed.

Lemma grid_value :
  grid = flat_map (fun s => map (pair s) ["bourne"; "wolf"; "figures"; "life"])
           ["sub-01"; "sub-02"; "sub-03"; "sub-04"; "sub-05"; "sub-06"].
Proof. unfold grid. rewrite tasks_value. apply list_prod_as_flat_map. Qed.

Lemma grid_NoDup : NoDup grid.
Proof. apply (bool_decide_unpack _). by vm_compute. Qed.

Section MainFacts.

Context {V volume signals : Type}.
Variable w : world V volume signals.

Lemma unpack_entry_events d t :
  (unpack_entry (volume:=volume) d t).2 = [].
Proof.
  unfold unpack_entry. destruct (d !! t) as [e|]; [|reflexivity].
  destruct (e.*2) as [|[l|x] [|[l'|regr] [|[l''|tmpl] [|? ?]]]]; reflexivity.
Qed.

Lemma dictionary_task_literal t (e : list Z * string * string) :
  unpack_entry (volume:=volume) create_data_dictionary.2 t = (Ok e, []) ->
  Re.regex_literal t = true.
Proof.
  unfold unpack_entry. destruct (create_data_dictionary.2 !! t) as [entry|] eqn:Hd;
    [|discriminate]. intros _.
  assert (Hdom : dom create_data_dictionary.2
                 = ({[ "bourne"; "wolf"; "figures"; "life" ]} : gset string))
    by (by vm_compute).
  assert (Hin : t ∈ (dom create_data_dictionary.2 : gset string))
    by (by eapply elem_of_dom_2).
  rewrite Hdom in Hin. clear Hd Hdom.
  repeat match goal with
         | H : _ ∈ _ ∪ _ |- _ => apply elem_of_union in H as [H|H]
         end; apply elem_of_singleton in Hin as ->; reflexivity.
Qed.

Lemma main_body_ok (st : string * string) evs :
  main_body w create_data_dictionary.2 st = (Ok tt, evs) -> turn_events w st evs.
Proof.
  destruct st as [s t]. unfold main_body, turn_events. intros H.
  apply bind_ok in H as ([[seg_len regr] tmpl] & l1 & l2 & He & H & ->).
  pose proof (unpack_entry_events create_data_dictionary.2 t) as Hl1.
  rewrite He in Hl1. simpl in Hl1. subst l1.
  apply bind_ok in H as (files & l3 & l4 & Hf & H & ->).
  injection Hf as <- <-.
  apply bind_ok in H as (ms & l5 & l6 & Hms & H & ->).
  apply lift_ok in Hms as [Hms ->].
  apply bind_ok in H as (regressors & l7 & l8 & Hr & H & ->).
  injection Hr as <- <-.
  apply bind_ok in H as (rs & l9 & l10 & Hrs & H & ->).
  apply lift_ok in Hrs as [Hrs ->].
  apply bind_ok in H as (fname & l11 & l12 & Hcall & H & ->).
  apply call_images in Hcall
    as (s' & t' & tmpl' & sl & imgs & [= <-] & [= <-] & [= <-] & [= <-] & -> & Hn
        & Himgs & Hlen & ->).
  injection H as <-.
  pose proof (dictionary_task_literal _ _ He) as Hlit.
  exists seg_len, regr, tmpl, ms, rs, imgs.
  split; [exact He|]. split; [exact Hms|]. split; [by apply get_segment_sorted|].
  split; [exact Hrs|]. split; [by apply get_segment_sorted|].
  split; [exact Himgs|]. split.
  - rewrite Hlen, py_take_nonneg by lia. rewrite length_take_le; lia.
  - simpl. rewrite <- !app_assoc. reflexivity.
Qed.

Lemma turn_events_printed st evs : turn_events w st evs -> printed evs = [st].
Proof.
  destruct st as [s t].
  intros (seg_len & regr & tmpl & ms & rs & imgs & _ & _ & _ & _ & _ & _ & _ & ->).
  rewrite !printed_app, printed_loads, printed_cleans. reflexivity.
Qed.

Lemma turns_printed (l : list (string * string)) turns :
  Forall2 (turn_events w) l turns -> printed (concat turns) = l.
Proof.
  induction 1 as [|st evs l turns Hst _ IH]; [reflexivity|].
  simpl. rewrite printed_app, IH, (turn_events_printed _ _ Hst). reflexivity.
Qed.

End MainFacts.

(** [C7] A run of the main program that raises no error visits every
    (subject, task) pair of the grid of 6 subjects and 4 tasks exactly
    once, in subject-major, task-minor order, and does the same sequence
    for each pair: locate the files, sort both lists by segment index,
    then clean, truncate, concatenate and write. *)
Theorem main_visits_grid_in_order {V volume signals} (w : world V volume signals)
    (log : list (event volume)) :
  main w = (Ok tt, log) ->
  length grid = 24%nat /\ NoDup grid /\
  grid = flat_map (fun s => map (pair s) ["bourne"; "wolf"; "figures"; "life"])
           ["sub-01"; "sub-02"; "sub-03"; "sub-04"; "sub-05"; "sub-06"] /\
  printed log = grid /\
  exists turns, log = concat turns /\ Forall2 (turn_events w) grid turns.
Proof.
  intros H. split; [reflexivity|]. split; [exact grid_NoDup|].
  split; [exact grid_value|].
  assert (Hmain : main w = for_each grid (main_body w create_data_dictionary.2)).
  { unfold main, grid. by destruct create_data_dictionary. }
  rewrite Hmain in H. apply for_each_ok in H as (turns & -> & Hturns).
  assert (Hall : Forall2 (turn_events w) grid turns).
  { eapply Forall2_impl; [exact Hturns|]. intros st evs. apply main_body_ok. }
  split; [by apply (turns_printed w)|]. by exists turns.
Qed.

Lemma main_visits_grid_in_order_witness :
  length grid = 24%nat /\ NoDup grid /\
  grid = flat_map (fun s => map (pair s) ["bourne"; "wolf"; "figures"; "life"])
           ["sub-01"; "sub-02"; "sub-03"; "sub-04"; "sub-05"; "sub-06"] /\
  printed (main Demo.w).2 = grid /\
  exists turns, (main Demo.w).2 = concat turns /\ Forall2 (turn_events Demo.w) grid turns.
Proof.
  apply (main_visits_grid_in_order Demo.w (main Demo.w).2).
  vm_compute. reflexivity.
Defined.

(** The claim [C7] as stated fails on a run that raises: over an empty
    directory tree the assertion of the first call fails, the program
    stops in the turn of (sub-01, bourne), and none of the 24 pairs is
    completed. *)
Lemma main_stops_at_first_error :
  main Demo.empty
  = (Raise AssertionError,
     [EvRglob "sub-01" "*bourne*space-MNI152NLin2009cAsym_desc-preproc_bold.nii.gz";
      EvRglob "sub-01" "*_task-bourne*desc-confounds_regressors.tsv"]) /\
  printed (main Demo.empty).2 = [] /\
  length grid = 24%nat.
Proof. repeat split; by vm_compute. Qed.

(** ** Further properties *)

(** The parameter [segment_lengths] has no effect on a call: the loop
    reads the module-level [seg_len].  So the call with the lengths 1 and
    1 below still cuts the two segments to the 3 and 5 volumes of the
    module-level list. *)
Theorem segment_lengths_argument_unused {V volume signals}
    (w : world V volume signals) (G : globals) (bold_files regressors : list string)
    (lengths lengths' : list Z) (n_segments fwhm : option Z) :
  subset_and_process_movie10 w G bold_files regressors lengths n_segments fwhm
  = subset_and_process_movie10 w G bold_files regressors lengths' n_segments fwhm.
Proof. reflexivity. Qed.

Example module_level_lengths_used :
  (fun f => length f.2) <$>
    saved_files
      (subset_and_process_movie10 Demo.w (Demo.bourne_globals [3; 5])
         Demo.bourne_bold Demo.bourne_confounds [1; 1] (Some 2) None).2
  = [8%nat].
Proof. by vm_compute. Qed.

(** Sorting is by number, not by text: segment 9 comes before segment 10. *)
Example get_segment_numeric_order :
  _get_segment ["a_task-life10_x"; "a_task-life9_x"; "a_task-life02_x"] "life"
  = Ok ["a_task-life02_x"; "a_task-life9_x"; "a_task-life10_x"].
Proof. reflexivity. Qed.

Section PrintFacts.

Context {V volume signals : Type}.
Variable w : world V volume signals.

Lemma printed_bind_nil {A B} (m : M volume A) (k : A -> M volume B) :
  printed m.2 = [] -> (forall a, printed (k a).2 = []) -> printed (bind m k).2 = [].
Proof.
  destruct m as [[a|e] l1]; simpl; intros Hm Hk; [|exact Hm].
  specialize (Hk a). destruct (k a) as [r l2]. simpl in *.
  by rewrite printed_app, Hm, Hk.
Qed.

Lemma printed_lift {A} (r : result A) : printed (lift (volume:=volume) r).2 = [].
Proof. reflexivity. Qed.

Lemma printed_read_global {A} (x : option A) :
  printed (read_global (volume:=volume) x).2 = [].
Proof. by destruct x. Qed.

Lemma printed_read_local {A} (x : option A) :
  printed (read_local (volume:=volume) x).2 = [].
Proof. by destruct x. Qed.

Lemma printed_load_all (rs : list string) :
  printed (mapM_ev (_subset_confounds w) rs).2 = [].
Proof.
  induction rs as [|r rs IH]; [reflexivity|]. simpl.
  apply printed_bind_nil; [by rewrite subset_confounds_events|].
  intros c. apply printed_bind_nil; [exact IH | reflexivity].
Qed.

Lemma printed_process_segments G confs fwhm ms : forall n,
  printed (process_segments w G confs fwhm n ms).2 = [].
Proof.
  induction ms as [|m ms IH]; intros n; [reflexivity|]. simpl.
  apply printed_bind_nil.
  - unfold process_segment.
    apply printed_bind_nil; [apply printed_lift|]. intros conf.
    apply printed_bind_nil; [by rewrite nifti_mask_movie_events|]. intros img.
    apply printed_bind_nil; [apply printed_read_global|]. intros sl.
    apply printed_bind_nil; [apply printed_lift|]. intros k. apply printed_lift.
  - intros p. apply printed_bind_nil; [apply IH | reflexivity].
Qed.

Lemma printed_call G bold_files regressors segment_lengths n_segments fwhm :
  printed (subset_and_process_movie10 w G bold_files regressors segment_lengths
             n_segments fwhm).2 = [].
Proof.
  unfold subset_and_process_movie10. apply printed_bind_nil.
  - unfold bind_segments. destruct n_segments as [n|]; [|reflexivity].
    by destruct (n <=? _).
  - intros [oms ors]. unfold process_bound_segments.
    apply printed_bind_nil; [apply printed_read_local|]. intros rs.
    apply printed_bind_nil; [apply printed_load_all|]. intros confs.
    apply printed_bind_nil; [apply printed_read_local|]. intros ms.
    apply printed_bind_nil; [apply printed_process_segments|]. intros segs.
    apply printed_bind_nil; [apply printed_read_global|]. intros s.
    apply printed_bind_nil; [apply printed_read_global|]. intros t.
    apply printed_bind_nil; [apply printed_read_global|]. intros tmpl.
    apply printed_bind_nil; [apply printed_lift|]. intros movie.
    apply printed_bind_nil; [|reflexivity].
    unfold nib_save. by destruct (writable w _).
Qed.

Lemma bind_raise_inv {A B} (m : M volume A) (k : A -> M volume B) e evs :
  bind m k = (Raise e, evs) ->
  m = (Raise e, evs) \/
  exists a l1 l2, m = (Ok a, l1) /\ k a = (Raise e, l2) /\ evs = l1 ++ l2.
Proof.
  destruct m as [[a|e'] l1]; unfold bind.
  - destruct (k a) as [r l2] eqn:Hk. intros [= -> <-]. right. eauto 6.
  - intros [= -> <-]. by left.
Qed.

(** A turn that raises has not printed its progress line. *)
Lemma main_body_raise d (st : string * string) e evs :
  main_body w d st = (Raise e, evs) -> printed evs = [].
Proof.
  destruct st as [s t]. unfold main_body. intros H.
  apply bind_raise_inv in H as [H|([[seg_len regr] tmpl] & l1 & l2 & He & H & ->)].
  { pose proof (unpack_entry_events (volume:=volume) d t) as Hl.
    rewrite H in Hl. simpl in Hl. by subst. }
  pose proof (unpack_entry_events (volume:=volume) d t) as Hl1.
  rewrite He in Hl1. simpl in Hl1. subst l1. simpl.
  apply bind_raise_inv in H as [H|(files & l3 & l4 & Hf & H & ->)]; [discriminate|].
  injection Hf as <- <-. rewrite printed_app. simpl.
  apply bind_raise_inv in H as [H|(ms & l5 & l6 & Hms & H & ->)].
  { by injection H as _ <-. }
  apply lift_ok in Hms as [_ ->]. simpl.
  apply bind_raise_inv in H as [H|(regressors & l7 & l8 & Hr & H & ->)]; [discriminate|].
  injection Hr as <- <-. rewrite printed_app. simpl.
  apply bind_raise_inv in H as [H|(rs & l9 & l10 & Hrs & H & ->)].
  { by injection H as _ <-. }
  apply lift_ok in Hrs as [_ ->]. simpl.
  apply bind_raise_inv in H as [H|(fname & l11 & l12 & Hcall & H & ->)].
  - pose proof (printed_call
                  {| g_s := Some s; g_t := Some t; g_tmpl := Some tmpl;
                     g_seg_len := Some seg_len |} ms rs seg_len (Some 5) (Some 6)) as Hp.
    by rewrite H in Hp.
  - discriminate.
Qed.

End PrintFacts.

(** [X14] In every run of the main program, with or without an error, the
    (subject, task) pairs completed are a first part of the grid, in its
    order: an error ends the run, and no pair is skipped or repeated
    before it. *)
Theorem main_completes_prefix_of_grid {V volume signals} (w : world V volume signals) :
  printed (main w).2 `prefix_of` grid.
Proof.
  assert (Hmain : main w = for_each grid (main_body w create_data_dictionary.2)).
  { unfold main, grid. by destruct create_data_dictionary. }
  rewrite Hmain. clear Hmain.
  destruct (for_each grid (main_body w create_data_dictionary.2))
    as [[[]|e] log] eqn:H; simpl.
  - apply for_each_ok in H as (turns & -> & Hturns).
    assert (Hall : Forall2 (turn_events w) grid turns).
    { eapply Forall2_impl; [exact Hturns|]. intros st evs. apply main_body_ok. }
    by rewrite (turns_printed w _ _ Hall).
  - apply for_each_raise in H as (done & x & rest & turns & evs & -> & -> & Hdone & Hx).
    assert (Hall : Forall2 (turn_events w) done turns).
    { eapply Forall2_impl; [exact Hdone|]. intros st evs'. apply main_body_ok. }
    rewrite printed_app, (turns_printed w _ _ Hall), (main_body_raise w _ _ _ _ Hx).
    rewrite app_nil_r. by apply prefix_app_r.
Qed.

(** ** More on [_get_segment] *)

Lemma sort_by_key_sorted_id {A} (l : list (Z * A)) :
  StronglySorted fst_le l -> sort_by_key l = l.
Proof.
  induction 1 as [|a l Hs IH Ha]; [reflexivity|].
  change (sort_by_key (a :: l)) with (insert_by_key a (sort_by_key l)).
  rewrite IH. destruct Ha as [|b l' Hab _]; simpl; [reflexivity|].
  unfold fst_le in Hab. by destruct (Z.leb_spec a.1 b.1); [|lia].
Qed.

Lemma zip_keys_sorted {A} (key : A -> result Z) l ks :
  Forall2 (fun x k => key x = Ok k) l ks ->
  StronglySorted (key_le key) l -> StronglySorted fst_le (zip ks l).
Proof.
  induction 1 as [|x k l ks Hk Hks IH]; intros Hs; simpl; [constructor|].
  apply StronglySorted_inv in Hs as [Hs Hx]. constructor; [auto|].
  clear IH Hs. induction Hks as [|y k' l ks Hy _ IH]; simpl; [constructor|].
  apply Forall_cons in Hx as [(kx & ky & H1 & H2 & Hle) Hx].
  constructor; [|auto]. unfold fst_le. simpl.
  assert (kx = k) by congruence. assert (ky = k') by congruence. lia.
Qed.

Lemma keys_of_sorted_decorated {A} (key : A -> result Z) (l : list A) ks :
  Forall2 (fun x k => key x = Ok k) l ks ->
  Forall (fun p => key p.2 = Ok p.1) (zip ks l).
Proof. induction 1; simpl; constructor; auto. Qed.

Lemma filter_key_decorated {A} (key : A -> result Z) (k : Z) (l : list (Z * A)) :
  Forall (fun p => key p.2 = Ok p.1) l ->
  filter (fun x => key x = Ok k) l.*2 = (filter (fun p => p.1 = k) l).*2.
Proof.
  induction 1 as [|p l Hp _ IH]; [reflexivity|].
  rewrite fmap_cons, !filter_cons, IH.
  destruct (decide (key p.2 = Ok k)) as [H1|H1];
    destruct (decide (p.1 = k)) as [H2|H2]; try reflexivity; congruence.
Qed.

(** [X2] Python's [sorted] is stable: in the result of [_get_segment], the
    file names with one and the same segment index stand in the order they
    had in the list given. *)
Theorem get_segment_stable (files : list string) (task : string)
    (out : list string) (k : Z) :
  _get_segment files task = Ok out ->
  filter (fun x => segment_key task x = Ok k) out
  = filter (fun x => segment_key task x = Ok k) files.
Proof.
  intros H. apply sorted_with_key_inv in H as (ks & Hks & -> & _ & _).
  pose proof (keys_of_sorted_decorated _ _ _ Hks) as Hdec.
  rewrite filter_key_decorated.
  - rewrite sort_by_key_stable.
    rewrite <- (filter_key_decorated (segment_key task)) by exact Hdec.
    rewrite snd_zip; [reflexivity|]. apply Forall2_length in Hks. lia.
  - eapply Forall_forall. intros p Hp. eapply Forall_forall in Hdec; [exact Hdec|].
    by rewrite <- sort_by_key_perm.
Qed.

Lemma get_segment_stable_witness :
  filter (fun x => segment_key "life" x = Ok 2)
    ["a_task-life01"; "b_task-life2"; "a_task-life02"]
  = filter (fun x => segment_key "life" x = Ok 2)
    ["b_task-life2"; "a_task-life01"; "a_task-life02"].
Proof.
  apply (get_segment_stable ["b_task-life2"; "a_task-life01"; "a_task-life02"] "life"
           ["a_task-life01"; "b_task-life2"; "a_task-life02"] 2).
  reflexivity.
Defined.

(** [X3] Sorting again changes nothing: [_get_segment] applied to a list
    it returned gives that list back. *)
Theorem get_segment_idempotent (files : list string) (task : string)
    (out : list string) :
  _get_segment files task = Ok out -> _get_segment out task = Ok out.
Proof.
  intros H. apply sorted_with_key_inv in H as (ks & Hks & _ & Hperm & Hsorted).
  assert (Hall : Forall (fun x => exists k, segment_key task x = Ok k) out).
  { rewrite Hperm. eapply Forall2_Forall_l; [exact Hks|]. apply Forall_true. eauto. }
  destruct (rmapM_total _ _ Hall) as [ks' Hks'].
  unfold _get_segment, sorted_with_key. rewrite Hks'. simpl.
  apply rmapM_ok in Hks'.
  rewrite sort_by_key_sorted_id by (eapply zip_keys_sorted; eauto).
  rewrite snd_zip; [reflexivity|]. apply Forall2_length in Hks'. lia.
Qed.

Lemma get_segment_idempotent_witness :
  _get_segment ["a_task-life02_x"; "a_task-life9_x"; "a_task-life10_x"] "life"
  = Ok ["a_task-life02_x"; "a_task-life9_x"; "a_task-life10_x"].
Proof.
  apply (get_segment_idempotent
           ["a_task-life10_x"; "a_task-life9_x"; "a_task-life02_x"] "life").
  reflexivity.
Defined.

Lemma distinct_keys_inj {A} (key : A -> result Z) (l : list A) ks x y :
  Forall2 (fun x k => key x = Ok k) l ks -> NoDup ks ->
  x ∈ l -> y ∈ l -> key x = key y -> x = y.
Proof.
  intros Hks Hnd Hx Hy Heq.
  apply list_elem_of_lookup in Hx as [i Hi]. apply list_elem_of_lookup in Hy as [j Hj].
  destruct (Forall2_lookup_l _ _ _ _ _ Hks Hi) as (k & Hki & Hk).
  destruct (Forall2_lookup_l _ _ _ _ _ Hks Hj) as (k' & Hkj & Hk').
  assert (k = k') as <- by congruence.
  assert (i = j) as <- by (eapply NoDup_lookup; eauto).
  congruence.
Qed.

(** [X4] When the file names have pairwise distinct segment indices, the
    result of [_get_segment] does not depend on the order in which the
    names are given (the order in which the directory search lists them). *)
Theorem get_segment_order_independent (files files' : list string) (task : string)
    (ks : list Z) :
  rmapM (segment_key task) files = Ok ks -> NoDup ks ->
  files' ≡ₚ files ->
  _get_segment files' task = _get_segment files task.
Proof.
  intros Hks Hnd Hperm. apply rmapM_ok in Hks.
  assert (Hall : Forall (fun x => exists k, segment_key task x = Ok k) files).
  { eapply Forall2_Forall_l; [exact Hks|]. apply Forall_true. eauto. }
  destruct (sorted_with_key_spec (segment_key task) files Hall)
    as (out & Hout & Hp & Hs).
  destruct (sorted_with_key_spec (segment_key task) files')
    as (out' & Hout' & Hp' & Hs'); [by rewrite Hperm|].
  unfold _get_segment. rewrite Hout, Hout'. f_equal.
  apply (StronglySorted_unique_strong (key_le (segment_key task)));
    [|assumption..|by rewrite Hp, Hp'].
  intros x y Hx Hy (kx & ky & Hkx & Hky & Hle) (ky' & kx' & Hky' & Hkx' & Hle').
  eapply (distinct_keys_inj (segment_key task) files ks); eauto.
  - by rewrite <- Hperm, <- Hp'.
  - by rewrite <- Hp.
  - assert (kx = kx') by congruence. assert (ky = ky') by congruence.
    rewrite Hkx, Hky. f_equal. lia.
Qed.

Lemma get_segment_order_independent_witness :
  _get_segment ["a_task-life9_x"; "a_task-life02_x"; "a_task-life10_x"] "life"
  = _get_segment ["a_task-life10_x"; "a_task-life9_x"; "a_task-life02_x"] "life".
Proof.
  apply (get_segment_order_independent
           ["a_task-life10_x"; "a_task-life9_x"; "a_task-life02_x"]
           ["a_task-life9_x"; "a_task-life02_x"; "a_task-life10_x"] "life" [10; 9; 2]).
  - reflexivity.
  - apply (bool_decide_unpack _). by vm_compute.
  - apply (bool_decide_unpack _). by vm_compute.
Defined.

(** ** The segment index of a file name *)

(** [X1] For a task name that is plain text in a pattern, the sort key of
    a file name is its segment index: the name has [task-], the task name
    and a decimal digit (of any script of Unicode) somewhere, and the key
    is the number written in base ten by the longest run of decimal digits
    that follows the first such place.  The key exists exactly when there
    is such a place and the run has at most 4300 digits. *)
Theorem segment_key_leftmost_digits (task x : string) (k : Z) :
  Re.regex_literal task = true ->
  segment_key task x = Ok k <->
  exists pre post vs rest,
    x = pre +:+ ("task-" +:+ task) +:+ post /\
    Str.digit_run post vs rest /\ vs <> [] /\
    Z.of_nat (length vs) <= 4300 /\
    k = Str.positional vs /\
    (forall pre' post', x = pre' +:+ ("task-" +:+ task) +:+ post' ->
       is_Some (Str.split_digit post') ->
       (String.length pre <= String.length pre')%nat).
Proof.
  intros Ht. rewrite (segment_key_index _ _ _ Ht). reflexivity.
Qed.

Lemma segment_key_leftmost_digits_witness :
  segment_key "life" ("sub-01_task-life_task-life01" +:+ Demo.arabic_three +:+ "_run-1")
  = Ok 13 <->
  exists pre post vs rest,
    "sub-01_task-life_task-life01" +:+ Demo.arabic_three +:+ "_run-1"
    = pre +:+ ("task-" +:+ "life") +:+ post /\
    Str.digit_run post vs rest /\ vs <> [] /\
    Z.of_nat (length vs) <= 4300 /\
    13 = Str.positional vs /\
    (forall pre' post',
       "sub-01_task-life_task-life01" +:+ Demo.arabic_three +:+ "_run-1"
       = pre' +:+ ("task-" +:+ "life") +:+ post' ->
       is_Some (Str.split_digit post') ->
       (String.length pre <= String.length pre')%nat).
Proof.
  apply (segment_key_leftmost_digits "life"
           ("sub-01_task-life_task-life01" +:+ Demo.arabic_three +:+ "_run-1") 13).
  reflexivity.
Defined.

(** Some decimal digits and their values: ASCII seven, Arabic-Indic three
    (U+0663), fullwidth one (U+FF11), mathematical double-struck one
    (U+1D7D9); and some characters that are none: a letter, superscript two
    (U+00B2, a digit of category No), the character after Arabic-Indic
    nine (U+066A). *)
Example decimal_digits :
  Str.split_digit "7_" = Some (7, "_") /\
  Str.split_digit (String "217" (String "163" "_")) = Some (3, "_") /\
  Str.split_digit (String "239" (String "188" (String "145" "_"))) = Some (1, "_") /\
  Str.split_digit (String "240" (String "157" (String "159" (String "153" "_"))))
    = Some (1, "_") /\
  Str.split_digit "a" = None /\
  Str.split_digit (String "194" (String "178" "_")) = None /\
  Str.split_digit (String "217" (String "170" "_")) = None.
Proof. repeat split; reflexivity. Qed.

(** The key of that name is 13: the digits are 0, 1 and the Arabic-Indic
    three, after the second [task-life], the first one that a digit follows. *)
Example segment_key_mixed_digits :
  segment_key "life" ("sub-01_task-life_task-life01" +:+ Demo.arabic_three +:+ "_run-1")
  = Ok 13.
Proof. reflexivity. Qed.

(** ** More on [_subset_confounds] *)

Section SelectFacts.

Context {V : Type}.
Implicit Types (a b : recarray V) (c : string).

Lemma field_None a c : c ∉ field_names a -> field a c = None.
Proof.
  unfold field_names. induction a as [|[c' col] a IH]; simpl; [done|].
  intros H. apply not_elem_of_cons in H as [Hne H].
  destruct (String.eqb_spec c c') as [->|_]; [done | auto].
Qed.

Lemma select_fields_ext (cs : list string) a b :
  (forall c, c ∈ cs -> field a c = field b c) ->
  select_fields cs a = select_fields cs b.
Proof.
  unfold select_fields. induction cs as [|c cs IH]; intros H; simpl; [reflexivity|].
  rewrite (H c) by (apply elem_of_cons; auto).
  rewrite IH; [reflexivity|]. intros c' Hc'. apply H, elem_of_cons. auto.
Qed.

Lemma select_fields_missing (cs : list string) a c :
  c ∈ cs -> c ∉ field_names a -> select_fields cs a = Raise KeyError.
Proof.
  intros Hc Hno. unfold select_fields. apply rmapM_raise.
  - intros c' e. destruct (field a c'); congruence.
  - apply Exists_exists. exists c. split; [exact Hc|].
    rewrite field_None by exact Hno. eauto.
Qed.

Lemma select_fields_again (cs : list string) a out :
  NoDup cs -> select_fields cs a = Ok out -> select_fields cs out = Ok out.
Proof.
  unfold select_fields. revert out.
  induction cs as [|c cs IH]; intros out Hnd H; simpl in *.
  - by injection H as <-.
  - apply NoDup_cons in Hnd as [Hc Hnd].
    apply rbind_ok in H as ([c0 col] & Hcol & H).
    apply rbind_ok in H as (out' & Hout' & [= <-]).
    destruct (field a c) as [col'|]; [|discriminate]. injection Hcol as <- <-.
    simpl. rewrite String.eqb_refl. simpl.
    change (rmapM ?f cs) with (select_fields cs ((c, col') :: out')).
    rewrite (select_fields_ext cs _ out').
    + unfold select_fields. rewrite (IH _ Hnd Hout'). reflexivity.
    + intros c' Hc'. simpl. destruct (String.eqb_spec c' c) as [->|_]; done.
Qed.

End SelectFacts.

Lemma keep_confounds_NoDup : NoDup keep_confounds.
Proof. apply (bool_decide_unpack _). by vm_compute. Qed.

Section SubsetFacts.

Context {V volume signals : Type}.
Variable w : world V volume signals.

Lemma subset_confounds_value (tsv : string) :
  _subset_confounds w tsv
  = (rbind (recfromcsv w tsv) (select_fields keep_confounds), [EvLoadConfounds tsv]).
Proof.
  unfold _subset_confounds, bind, emit, lift, ret. simpl.
  destruct (recfromcsv w tsv) as [a|e]; [|reflexivity]. simpl.
  destruct (select_fields keep_confounds a); reflexivity.
Qed.

End SubsetFacts.

(** [X5] [_subset_confounds] fails when the file cannot be read (with the
    error of the reader) and when the table read lacks one of the eight
    columns (with a [KeyError]); in both cases the file has been opened and
    no table is returned. *)
Theorem subset_confounds_errors {V volume signals} (w : world V volume signals)
    (tsv : string) :
  (forall e, recfromcsv w tsv = Raise e ->
     _subset_confounds w tsv = (Raise e, [EvLoadConfounds tsv])) /\
  (forall table c, recfromcsv w tsv = Ok table ->
     c ∈ keep_confounds -> c ∉ field_names table ->
     _subset_confounds w tsv = (Raise KeyError, [EvLoadConfounds tsv])).
Proof.
  split.
  - intros e He. rewrite subset_confounds_value, He. reflexivity.
  - intros table c Ht Hc Hno. rewrite subset_confounds_value, Ht. simpl.
    by rewrite (select_fields_missing keep_confounds table c).
Qed.

(** [X6] The table [_subset_confounds] returns depends on the eight
    columns only: two files whose tables agree on these columns, whatever
    their other columns and the order of their columns, give the same
    result, and selecting the eight columns from a returned table gives it
    back. *)
Theorem subset_confounds_only_eight_columns {V volume signals}
    (w : world V volume signals) (tsv tsv' : string) (a b : recarray V) :
  recfromcsv w tsv = Ok a -> recfromcsv w tsv' = Ok b ->
  (forall c, c ∈ keep_confounds -> field a c = field b c) ->
  (_subset_confounds w tsv).1 = (_subset_confounds w tsv').1 /\
  (forall out, (_subset_confounds w tsv).1 = Ok out ->
     select_fields keep_confounds out = Ok out).
Proof.
  intros Ha Hb Hab. rewrite !subset_confounds_value, Ha, Hb. simpl. split.
  - by apply select_fields_ext.
  - intros out. apply select_fields_again, keep_confounds_NoDup.
Qed.

Lemma subset_confounds_errors_witness :
  _subset_confounds Demo.tables "absent.tsv"
  = (Raise OSError, [EvLoadConfounds "absent.tsv"]) /\
  _subset_confounds Demo.tables "short.tsv"
  = (Raise KeyError, [EvLoadConfounds "short.tsv"]).
Proof.
  split.
  - apply (proj1 (subset_confounds_errors Demo.tables "absent.tsv")). reflexivity.
  - apply (proj2 (subset_confounds_errors Demo.tables "short.tsv") Demo.short_table "csf").
    + reflexivity.
    + apply (bool_decide_unpack _). by vm_compute.
    + apply (bool_decide_unpack _). by vm_compute.
Defined.

Lemma subset_confounds_only_eight_columns_witness :
  (_subset_confounds Demo.tables "wide.tsv").1
  = (_subset_confounds Demo.tables "narrow.tsv").1 /\
  (forall out, (_subset_confounds Demo.tables "wide.tsv").1 = Ok out ->
     select_fields keep_confounds out = Ok out).
Proof.
  apply (subset_confounds_only_eight_columns Demo.tables "wide.tsv" "narrow.tsv"
           Demo.table (rev (drop 1 Demo.table))).
  - reflexivity.
  - reflexivity.
  - apply Forall_forall. apply (bool_decide_unpack _). by vm_compute.
Defined.

(** ** Calls that complete *)

Lemma slicer_time_cut {volume} (img : image volume) (k : Z) :
  py_take k img <> [] -> slicer_time img k = Ok (py_take k img).
Proof. unfold slicer_time. by destruct (py_take k img). Qed.

Lemma py_take_length {A} (k : Z) (l : list A) :
  0 <= k -> Z.of_nat (length (py_take k l)) = Z.min k (Z.of_nat (length l)).
Proof. intros Hk. rewrite py_take_nonneg by lia. rewrite length_take. lia. Qed.

Lemma py_take_nonempty {A} (k : Z) (l : list A) :
  0 < k -> l <> [] -> py_take k l <> [].
Proof.
  intros Hk Hl H. apply (f_equal length) in H.
  pose proof (py_take_length k l ltac:(lia)) as Hlen. rewrite H in Hlen.
  destruct l; [done|]. simpl in Hlen. lia.
Qed.

Lemma cut_lengths {volume} (imgs : list (image volume)) (ks : list Z) :
  Forall2 (fun img k => 0 < k /\ img <> []) imgs ks ->
  Z.of_nat (length (concat (zip_with (fun img k => py_take k img) imgs ks)))
  = sum_Z (zip_with (fun img k => Z.min k (Z.of_nat (length img))) imgs ks).
Proof.
  induction 1 as [|img k imgs ks [Hk _] _ IH]; simpl; [reflexivity|].
  rewrite length_app, Nat2Z.inj_add, IH, py_take_length by lia. reflexivity.
Qed.

Section Cut.

Context {V volume signals : Type}.
Variable w : world V volume signals.
Variable G : globals.
Variable fwhm : option Z.
Variable sl : list Z.
Hypothesis Hsl : g_seg_len G = Some sl.

Lemma process_segment_cut confs n m conf (img : image volume) k :
  confs !! n = Some conf ->
  (_nifti_mask_movie w m tpl_mask (structured_to_unstructured conf) fwhm).1 = Ok img ->
  sl !! n = Some k ->
  py_take k img <> [] ->
  process_segment w G confs fwhm n m
  = (Ok (py_take k img), [EvClean (make_masker tpl_mask fwhm) m]).
Proof.
  intros Hconf Himg Hk Hne. apply pair_eta in Himg.
  rewrite nifti_mask_movie_events in Himg.
  unfold process_segment, py_index. rewrite Hconf, Hsl.
  change (lift (Ok conf)) with (ret (volume:=volume) conf). rewrite bind_ret_l.
  rewrite (bind_eq _ _ img [EvClean (make_masker tpl_mask fwhm) m]
             (Ok (py_take k img)) [] Himg); [reflexivity|].
  unfold read_global. rewrite bind_ret_l, Hk.
  change (lift (Ok k)) with (ret (volume:=volume) k). rewrite bind_ret_l.
  by rewrite slicer_time_cut.
Qed.

Lemma process_segments_cut confs ms : forall i (imgs : list (image volume)),
  length imgs = length ms ->
  (forall j m img, ms !! j = Some m -> imgs !! j = Some img ->
     exists conf k,
       confs !! (i + j)%nat = Some conf /\
       (_nifti_mask_movie w m tpl_mask (structured_to_unstructured conf) fwhm).1
         = Ok img /\
       sl !! (i + j)%nat = Some k /\ py_take k img <> []) ->
  process_segments w G confs fwhm i ms
  = (Ok (zip_with (fun img k => py_take k img) imgs (drop i sl)),
     EvClean (make_masker tpl_mask fwhm) <$> ms).
Proof.
  induction ms as [|m ms IH]; intros i imgs Hlen H.
  - destruct imgs; [reflexivity | discriminate].
  - destruct imgs as [|img imgs]; [discriminate|].
    destruct (H 0%nat m img eq_refl eq_refl) as (conf & k & Hc & Hi & Hk & Hne).
    rewrite Nat.add_0_r in Hc, Hk.
    rewrite (drop_S _ _ _ Hk). simpl.
    rewrite (bind_eq _ _ _ _ (Ok (py_take k img
               :: zip_with (fun img k => py_take k img) imgs (drop (S i) sl)))
               (EvClean (make_masker tpl_mask fwhm) <$> ms)
               (process_segment_cut confs i m conf img k Hc Hi Hk Hne));
      [reflexivity|].
    rewrite (bind_eq _ _ _ _ (Ok (py_take k img
               :: zip_with (fun img k => py_take k img) imgs (drop (S i) sl))) []
               (IH (S i) imgs ltac:(simpl in Hlen; lia) ltac:(
                  intros j m' img' Hm' Hi'; rewrite Nat.add_succ_l, <- Nat.add_succ_r;
                  exact (H (S j) m' img' Hm' Hi'))));
      [by rewrite app_nil_r | reflexivity].
Qed.

(** A call on well-formed inputs: what it returns and what it does. *)
Lemma call_succeeds (bold_files regressors : list string) (lengths : list Z) (n : Z)
    (s t tmpl : string) (imgs : list (image volume)) :
  g_s G = Some s -> g_t G = Some t -> g_tmpl G = Some tmpl ->
  0 < n <= Z.of_nat (length bold_files) ->
  n <= Z.of_nat (length regressors) ->
  rmapM (cleaned_segment w fwhm) (zip (py_take n bold_files) (py_take n regressors))
    = Ok imgs ->
  Forall2 (fun img k => py_take k img <> []) imgs (py_take n sl) ->
  writable w (postproc_name s t tmpl fwhm) = true ->
  subset_and_process_movie10 w G bold_files regressors lengths (Some n) fwhm
  = (Ok (postproc_name s t tmpl fwhm),
     (EvLoadConfounds <$> py_take n regressors)
     ++ (EvClean (make_masker tpl_mask fwhm) <$> py_take n bold_files)
     ++ [EvSave (postproc_name s t tmpl fwhm)
           (concat (zip_with (fun img k => py_take k img) imgs sl))]).
Proof.
  intros Hs Ht Htmpl Hn Hnr Himgs Hlens Hw.
  unfold subset_and_process_movie10, bind_segments.
  destruct (Z.leb_spec n (Z.of_nat (length bold_files))) as [_|]; [|lia].
  rewrite bind_ret_l.
  rewrite !py_take_nonneg in * by lia.
  set (N := Z.to_nat n) in *.
  set (ms := take N bold_files) in *. set (rs := take N regressors) in *.
  assert (Hms : length ms = N) by (subst ms; rewrite length_take_le; lia).
  assert (Hrs : length rs = N) by (subst rs; rewrite length_take_le; lia).
  apply rmapM_ok in Himgs.
  assert (Hlen : length imgs = N).
  { erewrite <- Forall2_length by exact Himgs. rewrite length_zip. lia. }
  assert (Hall : Forall (fun r => exists c, (_subset_confounds w r).1 = Ok c) rs).
  { apply Forall_lookup. intros j r Hr.
    destruct (lookup_lt_is_Some_2 ms j) as [m Hm].
    { apply lookup_lt_Some in Hr. lia. }
    destruct (Forall2_lookup_l _ _ _ j (m, r) Himgs) as (img & _ & Hc).
    { by apply lookup_zip_Some. }
    apply cleaned_segment_ok in Hc as (c & Hc & _). eauto. }
  apply Forall_exists_Forall2_l in Hall as [confs Hconfs].
  pose proof (load_all_intro w rs confs Hconfs) as Hload.
  assert (Hloop : process_segments w G confs fwhm 0 ms
                  = (Ok (zip_with (fun img k => py_take k img) imgs sl),
                     EvClean (make_masker tpl_mask fwhm) <$> ms)).
  { rewrite <- (drop_0 sl) at 1.
    apply process_segments_cut; [lia|].
    intros j m img Hm Hi. simpl.
    destruct (lookup_lt_is_Some_2 rs j) as [r Hr].
    { apply lookup_lt_Some in Hm. lia. }
    pose proof (Forall2_lookup_lr _ _ _ j (m, r) img Himgs
                  (proj2 (lookup_zip_Some _ _ _ _ _) (conj Hm Hr)) Hi) as Hc.
    apply cleaned_segment_ok in Hc as (c & Hc & Hclean).
    destruct (Forall2_lookup_l _ _ _ j r Hconfs Hr) as (c' & Hc' & Hcc).
    assert (c' = c) as -> by congruence.
    destruct (Forall2_lookup_l _ _ _ j img Hlens Hi) as (k & Hk & Hkk).
    apply lookup_take_Some in Hk as [Hk _].
    exists c, k. auto. }
  assert (Hpos : (0 < length (zip_with (fun img k => py_take k img) imgs sl))%nat).
  { rewrite length_zip_with.
    pose proof (Forall2_length _ _ _ Hlens) as H2. rewrite length_take in H2.
    unfold image in *. rewrite Hlen in *. unfold N in *. lia. }
  unfold process_bound_segments, read_local.
  rewrite bind_ret_l, (bind_step _ _ _ _ Hload), bind_ret_l.
  rewrite (bind_step _ _ _ _ Hloop). rewrite Hs, Ht, Htmpl.
  unfold read_global. rewrite !bind_ret_l.
  rewrite concat_imgs_ok by exact Hpos.
  change (lift (Ok ?x)) with (ret (volume:=volume) x). rewrite bind_ret_l.
  unfold nib_save. rewrite Hw. unfold bind, emit, ret. simpl. reflexivity.
Qed.

End Cut.

(** [X7] The loop cuts by the module-level [seg_len], whatever list is
    passed as [segment_lengths]: for [n_segments] between 1 and the number
    of BOLD files, as many confound files, segments that clean to images
    with at least one volume and positive module-level lengths, the call
    completes, and the file written holds the cleaned segments one after
    the other, the n-th cut to the smaller of [seg_len[n]] and its number
    of volumes. *)
Theorem segments_cut_to_module_level_lengths {V volume signals}
    (w : world V volume signals) (G : globals) (bold_files regressors : list string)
    (lengths seg_len : list Z) (n : Z) (fwhm : option Z) (s t tmpl : string)
    (imgs : list (image volume)) :
  g_seg_len G = Some seg_len ->
  g_s G = Some s -> g_t G = Some t -> g_tmpl G = Some tmpl ->
  0 < n <= Z.of_nat (length bold_files) ->
  n <= Z.of_nat (length regressors) ->
  rmapM (cleaned_segment w fwhm) (zip (py_take n bold_files) (py_take n regressors))
    = Ok imgs ->
  Forall2 (fun img k => 0 < k /\ img <> []) imgs (py_take n seg_len) ->
  writable w (postproc_name s t tmpl fwhm) = true ->
  exists log,
    subset_and_process_movie10 w G bold_files regressors lengths (Some n) fwhm
      = (Ok (postproc_name s t tmpl fwhm), log) /\
    saved_files log =
      [(postproc_name s t tmpl fwhm,
        concat (zip_with (fun img k => py_take k img) imgs seg_len))] /\
    Z.of_nat (length (concat (zip_with (fun img k => py_take k img) imgs seg_len)))
      = sum_Z (zip_with (fun img k => Z.min k (Z.of_nat (length img))) imgs seg_len).
Proof.
  intros Hsl Hs Ht Htmpl Hn Hnr Himgs Hlens Hw.
  eexists. split; [|split].
  - eapply (call_succeeds w G fwhm seg_len Hsl); eauto.
    eapply Forall2_impl; [exact Hlens|]. intros img k [Hk Himg].
    by apply py_take_nonempty.
  - rewrite !saved_files_app, saved_files_loads, saved_files_cleans. reflexivity.
  - pose proof (cut_lengths _ _ Hlens) as Hcut.
    rewrite py_take_nonneg in Hcut, Hlens by lia.
    assert (Hlen : length imgs = Z.to_nat n).
    { apply rmapM_ok, Forall2_length in Himgs. rewrite <- Himgs, length_zip.
      rewrite !py_take_nonneg by lia. rewrite !length_take_le; lia. }
    rewrite <- Hlen in Hcut. by rewrite !zip_with_take_r in Hcut.
Qed.

Lemma segments_cut_to_module_level_lengths_witness :
  exists log,
    subset_and_process_movie10 Demo.w (Demo.bourne_globals [3; 500])
      Demo.bourne_bold Demo.bourne_confounds [1; 1] (Some 2) (Some 6)
    = (Ok (postproc_name "sub-01" "bourne"
             "space-MNI152NLin2009cAsym_desc-preproc_bold" (Some 6)), log) /\
    saved_files log =
      [(postproc_name "sub-01" "bourne"
          "space-MNI152NLin2009cAsym_desc-preproc_bold" (Some 6),
        concat (zip_with (fun img k => py_take k img)
                  [[1; 2; 3; 4; 5; 6; 7; 8]; [1; 2; 3; 4; 5; 6; 7; 8]] [3; 500]))] /\
    Z.of_nat (length (concat (zip_with (fun img k => py_take k img)
                                [[1; 2; 3; 4; 5; 6; 7; 8]; [1; 2; 3; 4; 5; 6; 7; 8]]
                                [3; 500])))
      = sum_Z (zip_with (fun img k => Z.min k (Z.of_nat (length img)))
                 [[1; 2; 3; 4; 5; 6; 7; 8]; [1; 2; 3; 4; 5; 6; 7; 8]] [3; 500]).
Proof.
  apply (segments_cut_to_module_level_lengths Demo.w (Demo.bourne_globals [3; 500])
           Demo.bourne_bold Demo.bourne_confounds [1; 1] [3; 500] 2 (Some 6)
           "sub-01" "bourne" "space-MNI152NLin2009cAsym_desc-preproc_bold").
  - reflexivity.
  - reflexivity.
  - reflexivity.
  - reflexivity.
  - simpl. lia.
  - simpl. lia.
  - vm_compute. reflexivity.
  - repeat constructor; simpl; (lia || discriminate).
  - reflexivity.
Defined.

(** ** The events of any call, completed or not *)

Section ShapeFacts.

Context {V volume signals : Type}.
Variable w : world V volume signals.

Lemma bind_inv {A B} (m : M volume A) (k : A -> M volume B) r log :
  bind m k = (r, log) ->
  (exists e, m = (Raise e, log) /\ r = Raise e) \/
  (exists a l1 l2, m = (Ok a, l1) /\ k a = (r, l2) /\ log = l1 ++ l2).
Proof.
  destruct m as [[a|e] l1]; unfold bind.
  - destruct (k a) as [r' l2] eqn:Hk. intros [= <- <-]. right. eauto 6.
  - intros [= <- <-]. left. eauto.
Qed.

Lemma load_all_shape (rs : list string) r log :
  mapM_ev (_subset_confounds w) rs = (r, log) ->
  exists rs', log = EvLoadConfounds <$> rs' /\ rs' `prefix_of` rs /\
              (forall confs, r = Ok confs -> rs' = rs /\ length confs = length rs).
Proof.
  revert r log. induction rs as [|r0 rs IH]; intros r log H; simpl in H.
  - injection H as <- <-. exists []. split; [reflexivity|]. split; [done|].
    by intros confs [= <-].
  - rewrite subset_confounds_value in H.
    apply bind_inv in H as [(e & [= He <-] & ->)|(c & l1 & l2 & [= Hc <-] & H & ->)].
    + exists [r0]. split; [reflexivity|]. split; [|discriminate].
      by apply prefix_cons, prefix_nil.
    + apply bind_inv in H as [(e & H & ->)|(cs & l3 & l4 & H & [= <- <-] & ->)];
        apply IH in H as (rs' & -> & Hpre & Hok).
      * exists (r0 :: rs'). split; [reflexivity|].
        split; [by apply prefix_cons | discriminate].
      * exists (r0 :: rs'). split; [by rewrite app_nil_r|].
        split; [by apply prefix_cons|]. intros confs [= <-].
        destruct (Hok cs eq_refl) as [-> Hlen]. simpl. by rewrite Hlen.
Qed.

Section LoopShape.

Variable G : globals.
Variable confounds : list (recarray V).
Variable fwhm : option Z.

Lemma process_segment_shape n m r log :
  process_segment w G confounds fwhm n m = (r, log) ->
  (log = [] /\ ~ (n < length confounds)%nat /\ r = Raise IndexError) \/
  (log = [EvClean (make_masker tpl_mask fwhm) m] /\ (n < length confounds)%nat /\
   forall seg, r = Ok seg ->
     exists sl, g_seg_len G = Some sl /\ (n < length sl)%nat).
Proof.
  unfold process_segment, py_index. intros H.
  destruct (confounds !! n) as [conf|] eqn:Hconf.
  - right. apply lookup_lt_Some in Hconf as Hlt.
    change (lift (Ok conf)) with (ret (volume:=volume) conf) in H.
    rewrite bind_ret_l in H.
    pose proof (nifti_mask_movie_events w m tpl_mask
                  (structured_to_unstructured conf) fwhm) as Hev.
    apply bind_inv in H as [(e & H & ->)|(img & l1 & l2 & Hi & H & ->)].
    { rewrite H in Hev. simpl in Hev. subst log. split; [done|]. split; [done|].
      discriminate. }
    rewrite Hi in Hev. simpl in Hev. subst l1.
    unfold read_global in H. destruct (g_seg_len G) as [sl|].
    + rewrite bind_ret_l in H. destruct (sl !! n) as [k|] eqn:Hk.
      * change (lift (Ok k)) with (ret (volume:=volume) k) in H.
        rewrite bind_ret_l in H. injection H as <- <-.
        split; [done|]. split; [done|]. intros seg _. exists sl. split; [done|].
        by apply lookup_lt_Some in Hk.
      * injection H as <- <-. split; [done|]. split; [done|]. discriminate.
    + injection H as <- <-. split; [done|]. split; [done|]. discriminate.
  - left. injection H as <- <-. apply lookup_ge_None in Hconf.
    split; [done|]. split; [lia | done].
Qed.

Lemma process_segments_shape ms : forall n r log,
  process_segments w G confounds fwhm n ms = (r, log) ->
  exists ms', log = EvClean (make_masker tpl_mask fwhm) <$> ms' /\
              ms' `prefix_of` ms /\
              (forall segs, r = Ok segs ->
                 ms' = ms /\ length segs = length ms /\
                 (ms <> [] -> (n + length ms <= length confounds)%nat /\
                              exists sl, g_seg_len G = Some sl /\
                                         (n + length ms <= length sl)%nat)).
Proof.
  induction ms as [|m ms IH]; intros n r log H; simpl in H.
  - injection H as <- <-. exists []. split; [reflexivity|]. split; [done|].
    intros segs [= <-]. simpl. split; [done|]. split; [done|]. done.
  - apply bind_inv in H as [(e & H & ->)|(p & l1 & l2 & Hp & H & ->)].
    + apply process_segment_shape in H as [(-> & _)|(-> & _)].
      * exists []. split; [reflexivity|]. split; [apply prefix_nil | discriminate].
      * exists [m]. split; [reflexivity|].
        split; [by apply prefix_cons, prefix_nil | discriminate].
    + apply process_segment_shape in Hp as [(_ & _ & [=])|(-> & Hlt & Hsl)].
      destruct (Hsl p eq_refl) as (sl & Hg & Hn).
      apply bind_inv in H as [(e & H & ->)|(ps & l3 & l4 & H & [= <- <-] & ->)];
        apply IH in H as (ms' & -> & Hpre & Hok).
      * exists (m :: ms'). split; [reflexivity|].
        split; [by apply prefix_cons | discriminate].
      * exists (m :: ms'). split; [by rewrite app_nil_r|].
        split; [by apply prefix_cons|]. intros segs [= <-].
        destruct (Hok ps eq_refl) as (-> & Hlen & Hl).
        split; [done|]. split; [simpl; by rewrite Hlen|].
        intros _. destruct ms as [|m' ms].
        { simpl. split; [lia|]. exists sl. split; [done | lia]. }
        destruct Hl as (Hc & sl' & Hg' & Hn'); [done|].
        assert (sl' = sl) as -> by congruence.
        split; [simpl in *; lia|]. exists sl. split; [done | simpl in *; lia].
Qed.

End LoopShape.

(** The events of the body after the two lists are bound: loads of a first
    part of the confound files, then cleanings of a first part of the
    scans, begun only once every confound file is loaded, then, in a call
    that completes and only there, the one file written. *)
Lemma process_bound_shape G fwhm ms rs r log :
  process_bound_segments w G fwhm (Some ms, Some rs) = (r, log) ->
  exists rs' ms' saves,
    log = (EvLoadConfounds <$> rs')
          ++ (EvClean (make_masker tpl_mask fwhm) <$> ms') ++ saves /\
    rs' `prefix_of` rs /\ ms' `prefix_of` ms /\
    (ms' <> [] -> rs' = rs) /\
    match r with
    | Ok fname =>
        rs' = rs /\ ms' = ms /\ (exists movie, saves = [EvSave fname movie]) /\
        (1 <= length ms <= length rs)%nat /\
        exists sl, g_seg_len G = Some sl /\ (length ms <= length sl)%nat
    | Raise _ => saves = []
    end.
Proof.
  unfold process_bound_segments, read_local. rewrite bind_ret_l. intros H.
  apply bind_inv in H as [(e & H & ->)|(confs & l1 & l2 & Hload & H & ->)].
  { apply load_all_shape in H as (rs' & -> & Hpre & _).
    exists rs', [], []. split; [by rewrite app_nil_r|].
    split; [done|]. split; [apply prefix_nil|]. done. }
  apply load_all_shape in Hload as (rs' & -> & _ & Hok).
  destruct (Hok confs eq_refl) as [-> Hconfs]. clear Hok.
  rewrite bind_ret_l in H.
  apply bind_inv in H as [(e & H & ->)|(segs & l3 & l4 & Hloop & H & ->)].
  { apply process_segments_shape in H as (ms' & -> & Hpre & _).
    exists rs, ms', []. rewrite app_nil_r. split; [reflexivity|]. done. }
  apply process_segments_shape in Hloop as (ms' & -> & _ & Hok).
  destruct (Hok segs eq_refl) as (-> & Hsegs & Hsl). clear Hok.
  assert (Hfail : forall e, (Raise e, []) = (r, l4) ->
    exists rs' ms' saves,
      (EvLoadConfounds <$> rs) ++ (EvClean (make_masker tpl_mask fwhm) <$> ms) ++ l4
      = (EvLoadConfounds <$> rs')
        ++ (EvClean (make_masker tpl_mask fwhm) <$> ms') ++ saves /\
      rs' `prefix_of` rs /\ ms' `prefix_of` ms /\ (ms' <> [] -> rs' = rs) /\
      match r with
      | Ok fname =>
          rs' = rs /\ ms' = ms /\ (exists movie, saves = [EvSave fname movie]) /\
          (1 <= length ms <= length rs)%nat /\
          exists sl, g_seg_len G = Some sl /\ (length ms <= length sl)%nat
      | Raise _ => saves = []
      end).
  { intros e [= <- <-]. exists rs, ms, []. done. }
  unfold read_global in H.
  destruct (g_s G) as [s|]; [|by apply (Hfail NameError)].
  rewrite bind_ret_l in H.
  destruct (g_t G) as [t|]; [|by apply (Hfail NameError)].
  rewrite bind_ret_l in H.
  destruct (g_tmpl G) as [tmpl|]; [|by apply (Hfail NameError)].
  rewrite bind_ret_l in H.
  destruct segs as [|seg segs]; [by apply (Hfail TypeError)|].
  change (lift (concat_imgs (seg :: segs)))
    with (ret (volume:=volume) (concat (seg :: segs))) in H.
  rewrite bind_ret_l in H.
  unfold nib_save in H. destruct (writable w _); [|by apply (Hfail OSError)].
  unfold bind, emit, ret in H. simpl in H. injection H as <- <-.
  exists rs, ms, [EvSave (postproc_name s t tmpl fwhm) (concat (seg :: segs))].
  split; [reflexivity|]. split; [done|]. split; [done|]. split; [done|].
  split; [done|]. split; [done|]. split; [eauto|].
  assert (Hne : ms <> []) by (intros ->; discriminate).
  destruct (Hsl Hne) as (Hc & sl & Hg & Hn). split.
  - simpl in Hsegs. rewrite Hconfs in Hc. destruct ms; [done|]. simpl in *. lia.
  - exists sl. split; [done | lia].
Qed.

Lemma call_shape G bold_files regressors lengths n fwhm r log :
  subset_and_process_movie10 w G bold_files regressors lengths (Some n) fwhm = (r, log) ->
  (r = Raise AssertionError /\ log = [] /\ Z.of_nat (length bold_files) < n) \/
  (n <= Z.of_nat (length bold_files) /\
   process_bound_segments w G fwhm
     (Some (py_take n bold_files), Some (py_take n regressors)) = (r, log)).
Proof.
  unfold subset_and_process_movie10, bind_segments.
  destruct (Z.leb_spec n (Z.of_nat (length bold_files))) as [Hle|Hgt].
  - rewrite bind_ret_l. auto.
  - intros [= <- <-]. left. done.
Qed.

End ShapeFacts.

Lemma call_raise_saved {V volume signals} (w : world V volume signals)
    G bold_files regressors lengths n_segments fwhm e (log : list (event volume)) :
  subset_and_process_movie10 w G bold_files regressors lengths n_segments fwhm
  = (Raise e, log) ->
  saved_files log = [].
Proof.
  destruct n_segments as [n|].
  - intros H. apply call_shape in H as [(_ & -> & _)|[_ H]]; [reflexivity|].
    apply process_bound_shape in H as (rs' & ms' & saves & -> & _ & _ & _ & ->).
    by rewrite !saved_files_app, saved_files_loads, saved_files_cleans.
  - unfold subset_and_process_movie10, bind_segments. rewrite bind_ret_l.
    by intros [= _ <-].
Qed.

(** [X8] A call that raises writes no file, whatever it has loaded and
    cleaned before the error. *)
Theorem failed_call_writes_nothing {V volume signals} (w : world V volume signals)
    (G : globals) (bold_files regressors : list string) (lengths : list Z)
    (n_segments fwhm : option Z) (e : exn) (log : list (event volume)) :
  subset_and_process_movie10 w G bold_files regressors lengths n_segments fwhm
  = (Raise e, log) ->
  saved_files log = [].
Proof. apply call_raise_saved. Qed.

Lemma failed_call_writes_nothing_witness :
  saved_files
    (subset_and_process_movie10 Demo.w (Demo.bourne_globals [3])
       Demo.bourne_bold Demo.bourne_confounds [3] (Some 2) (Some 6)).2
  = [].
Proof.
  apply (failed_call_writes_nothing Demo.w (Demo.bourne_globals [3])
           Demo.bourne_bold Demo.bourne_confounds [3] (Some 2) (Some 6) IndexError).
  vm_compute. reflexivity.
Defined.

(** [X9] In every call with [n_segments] given, completed or not, the
    events are, in this order: the loads of a first part of the first
    [n_segments] confound files, the cleanings of a first part of the first
    [n_segments] scans, and at most one write.  No scan is cleaned before
    every one of these confound files is loaded, and no file beyond the
    first [n_segments] of either list is touched. *)
Theorem call_loads_then_cleans {V volume signals} (w : world V volume signals)
    (G : globals) (bold_files regressors : list string) (lengths : list Z)
    (n : Z) (fwhm : option Z) :
  exists rs' ms' saves,
    (subset_and_process_movie10 w G bold_files regressors lengths (Some n) fwhm).2
    = (EvLoadConfounds <$> rs')
      ++ (EvClean (make_masker tpl_mask fwhm) <$> ms') ++ saves /\
    rs' `prefix_of` py_take n regressors /\
    ms' `prefix_of` py_take n bold_files /\
    (ms' <> [] -> rs' = py_take n regressors) /\
    (saves = [] \/ exists fname movie, saves = [EvSave fname movie]).
Proof.
  destruct (subset_and_process_movie10 w G bold_files regressors lengths (Some n) fwhm)
    as [r log] eqn:H.
  apply call_shape in H as [(_ & -> & _)|[_ H]].
  - exists [], [], []. split; [reflexivity|].
    split; [apply prefix_nil|]. split; [apply prefix_nil|]. split; [done | by left].
  - apply process_bound_shape in H as (rs' & ms' & saves & -> & Hrs & Hms & Hall & Hr).
    exists rs', ms', saves. split; [reflexivity|]. split; [done|]. split; [done|].
    split; [done|]. destruct r as [fname|e]; [|by left].
    destruct Hr as (_ & _ & [movie ->] & _). right. eauto.
Qed.

(** [X10] A call with [n_segments] at least 1 completes only if there are
    at least [n_segments] BOLD files and as many confound files, and the
    module-level [seg_len] is bound and has at least [n_segments] entries. *)
Theorem completed_call_had_enough_inputs {V volume signals}
    (w : world V volume signals) (G : globals) (bold_files regressors : list string)
    (lengths : list Z) (n : Z) (fwhm : option Z) (fname : string)
    (log : list (event volume)) :
  0 < n ->
  subset_and_process_movie10 w G bold_files regressors lengths (Some n) fwhm
  = (Ok fname, log) ->
  n <= Z.of_nat (length bold_files) /\
  n <= Z.of_nat (length regressors) /\
  exists seg_len, g_seg_len G = Some seg_len /\ n <= Z.of_nat (length seg_len).
Proof.
  intros Hn H. apply call_shape in H as [([=] & _)|[Hle H]].
  apply process_bound_shape in H
    as (rs' & ms' & saves & _ & _ & _ & _ & _ & _ & _ & Hlen & sl & Hsl & Hk).
  rewrite !py_take_nonneg in * by lia. rewrite length_take_le in * by lia.
  rewrite length_take in Hlen.
  split; [exact Hle|]. split; [lia|]. exists sl. split; [exact Hsl | lia].
Qed.

Lemma completed_call_had_enough_inputs_witness :
  2 <= Z.of_nat (length Demo.bourne_bold) /\
  2 <= Z.of_nat (length Demo.bourne_confounds) /\
  exists seg_len,
    g_seg_len (Demo.bourne_globals [3; 5]) = Some seg_len /\
    2 <= Z.of_nat (length seg_len).
Proof.
  eapply (completed_call_had_enough_inputs Demo.w (Demo.bourne_globals [3; 5])
            Demo.bourne_bold Demo.bourne_confounds [3; 5] 2 (Some 6)).
  - lia.
  - vm_compute. reflexivity.
Defined.

(** [X11] A negative [n_segments] passes the assertion and counts from the
    end of the lists: with as many confound files as BOLD files, the call
    is the call with [n_segments] set to the number of BOLD files plus the
    negative number (or to 0 when that sum is negative). *)
Theorem negative_n_segments_counts_from_end {V volume signals}
    (w : world V volume signals) (G : globals) (bold_files regressors : list string)
    (lengths : list Z) (n : Z) (fwhm : option Z) :
  n < 0 ->
  length regressors = length bold_files ->
  subset_and_process_movie10 w G bold_files regressors lengths (Some n) fwhm
  = subset_and_process_movie10 w G bold_files regressors lengths
      (Some (Z.max 0 (Z.of_nat (length bold_files) + n))) fwhm.
Proof.
  intros Hn Hlen. unfold subset_and_process_movie10, bind_segments.
  destruct (Z.leb_spec n (Z.of_nat (length bold_files))); [|lia].
  destruct (Z.leb_spec (Z.max 0 (Z.of_nat (length bold_files) + n))
              (Z.of_nat (length bold_files))); [|lia].
  assert (Htake : forall l : list string, length l = length bold_files ->
            py_take n l = py_take (Z.max 0 (Z.of_nat (length bold_files) + n)) l).
  { intros l Hl. unfold py_take.
    destruct (Z.leb_spec 0 n); [lia|].
    destruct (Z.leb_spec 0 (Z.max 0 (Z.of_nat (length bold_files) + n))); [|lia].
    rewrite Hl. f_equal. lia. }
  by rewrite <- (Htake bold_files), <- (Htake regressors).
Qed.

Lemma negative_n_segments_counts_from_end_witness :
  subset_and_process_movie10 Demo.w (Demo.bourne_globals [3; 5])
    Demo.bourne_bold Demo.bourne_confounds [3; 5] (Some (-1)) (Some 6)
  = subset_and_process_movie10 Demo.w (Demo.bourne_globals [3; 5])
      Demo.bourne_bold Demo.bourne_confounds [3; 5]
      (Some (Z.max 0 (Z.of_nat (length Demo.bourne_bold) + -1))) (Some 6).
Proof.
  apply (negative_n_segments_counts_from_end Demo.w (Demo.bourne_globals [3; 5])
           Demo.bourne_bold Demo.bourne_confounds [3; 5] (-1) (Some 6)).
  - lia.
  - reflexivity.
Defined.

(** ** More on the main program *)

Lemma dictionary_lengths {volume} (t : string) (seg_len : list Z) (regr tmpl : string) :
  t ∈ create_data_dictionary.1 ->
  unpack_entry (volume:=volume) create_data_dictionary.2 t
    = (Ok (seg_len, regr, tmpl), []) ->
  (5 <= length seg_len)%nat /\ Forall (fun k => 0 < k) seg_len.
Proof.
  rewrite tasks_value. intros Ht H.
  repeat (apply elem_of_cons in Ht as [->|Ht];
          [vm_compute in H; injection H as <- _ _;
           split; [simpl; lia | apply (bool_decide_unpack _); by vm_compute]|]).
  by apply elem_of_nil in Ht.
Qed.

Lemma grid_tasks : Forall (fun st => st.2 ∈ create_data_dictionary.1) grid.
Proof. apply (bool_decide_unpack _). by vm_compute. Qed.

Lemma for_each_intro {volume A} (l : list A) (body : A -> M volume unit) :
  Forall (fun x => exists evs, body x = (Ok tt, evs)) l ->
  exists log, for_each l body = (Ok tt, log).
Proof.
  induction 1 as [|x l [evs Hx] _ [log IH]]; simpl.
  - by exists [].
  - exists (evs ++ log). by apply (bind_eq _ _ tt).
Qed.

Section MainRuns.

Context {V volume signals : Type}.
Variable w : world V volume signals.

Lemma main_unfold : main w = for_each grid (main_body w create_data_dictionary.2).
Proof. unfold main, grid. by destruct create_data_dictionary. Qed.

Lemma bind_ok_intro {A B} (m : M volume A) (k : A -> M volume B) a l1 b :
  m = (Ok a, l1) -> (exists evs, k a = (Ok b, evs)) ->
  exists evs, bind m k = (Ok b, evs).
Proof. intros Hm [evs Hk]. exists (l1 ++ evs). by apply (bind_eq _ _ a). Qed.

Lemma main_body_intro (st : string * string) :
  st.2 ∈ create_data_dictionary.1 -> turn_inputs w st ->
  exists evs, main_body w create_data_dictionary.2 st = (Ok tt, evs).
Proof.
  destruct st as [s t]. change ((s, t).2) with t.
  intros Ht (seg_len & regr & tmpl & ms & rs & imgs
             & He & Hms & Hrs & Hlm & Hlr & Himgs & Hne & Hw).
  destruct (dictionary_lengths t seg_len regr tmpl Ht He) as [Hlen Hpos].
  assert (Hcut : Forall2 (fun (img : image volume) k => py_take k img <> [])
                   imgs (py_take 5 seg_len)).
  { apply Forall2_same_length_lookup. split.
    - apply rmapM_ok, Forall2_length in Himgs. rewrite <- Himgs, length_zip.
      rewrite !py_take_nonneg by lia. rewrite !length_take_le; lia.
    - intros i img k Hi Hk. apply py_take_nonempty.
      + rewrite py_take_nonneg in Hk by lia. apply lookup_take_Some in Hk as [Hk _].
        eapply Forall_lookup in Hpos; [exact Hpos | exact Hk].
      + eapply Forall_lookup in Hne; [exact Hne | exact Hi]. }
  pose proof (call_succeeds w
                {| g_s := Some s; g_t := Some t; g_tmpl := Some tmpl;
                   g_seg_len := Some seg_len |}
                (Some 6) seg_len eq_refl ms rs seg_len 5 s t tmpl imgs
                eq_refl eq_refl eq_refl ltac:(lia) ltac:(lia) Himgs Hcut Hw) as Hcall.
  unfold main_body.
  eapply bind_ok_intro; [exact He|]. cbv beta iota.
  eapply bind_ok_intro; [reflexivity|]. cbv beta. rewrite Hms.
  eapply bind_ok_intro; [reflexivity|]. cbv beta.
  eapply bind_ok_intro; [reflexivity|]. cbv beta. rewrite Hrs.
  eapply bind_ok_intro; [reflexivity|]. cbv beta.
  eapply bind_ok_intro; [exact Hcall|]. by eexists.
Qed.

Lemma saved_bind_nil {A B} (m : M volume A) (k : A -> M volume B) :
  saved_files m.2 = [] -> (forall a, saved_files (k a).2 = []) ->
  saved_files (bind m k).2 = [].
Proof.
  destruct m as [[a|e] l1]; simpl; intros Hm Hk; [|exact Hm].
  specialize (Hk a). destruct (k a) as [r l2]. simpl in *.
  by rewrite saved_files_app, Hm, Hk.
Qed.

(** A turn that raises has written no file. *)
Lemma main_body_raise_saved d (st : string * string) e evs :
  main_body w d st = (Raise e, evs) -> saved_files evs = [].
Proof.
  destruct st as [s t]. unfold main_body. intros H.
  apply bind_raise_inv in H as [H|([[seg_len regr] tmpl] & l1 & l2 & He & H & ->)].
  { pose proof (unpack_entry_events (volume:=volume) d t) as Hl.
    rewrite H in Hl. simpl in Hl. by subst. }
  pose proof (unpack_entry_events (volume:=volume) d t) as Hl1.
  rewrite He in Hl1. simpl in Hl1. subst l1. simpl.
  apply bind_raise_inv in H as [H|(files & l3 & l4 & Hf & H & ->)]; [discriminate|].
  injection Hf as <- <-. rewrite saved_files_app. simpl.
  apply bind_raise_inv in H as [H|(ms & l5 & l6 & Hms & H & ->)].
  { by injection H as _ <-. }
  apply lift_ok in Hms as [_ ->]. simpl.
  apply bind_raise_inv in H as [H|(regressors & l7 & l8 & Hr & H & ->)]; [discriminate|].
  injection Hr as <- <-. rewrite saved_files_app. simpl.
  apply bind_raise_inv in H as [H|(rs & l9 & l10 & Hrs & H & ->)].
  { by injection H as _ <-. }
  apply lift_ok in Hrs as [_ ->]. simpl.
  apply bind_raise_inv in H as [H|(fname & l11 & l12 & Hcall & H & ->)].
  - by apply call_raise_saved in H.
  - discriminate.
Qed.

(** The name of the file a completed turn writes. *)
Lemma turn_events_saved (st : string * string) evs :
  st ∈ grid -> turn_events w st evs ->
  (saved_files evs).*1 =
    [st.1 +:+ "/" +:+ st.1 +:+ "_task-" +:+ st.2 +:+ "_"
     +:+ (if bool_decide (st.2 ∈ ["figures"; "life"]) then "run-1_" else "")
     +:+ "space-MNI152NLin2009cAsym_desc-fwhm6_bold.nii.gz"].
Proof.
  destruct st as [s t].
  intros Hin (seg_len & regr & tmpl & ms & rs & imgs & He & _ & _ & _ & _ & _ & _ & ->).
  rewrite !saved_files_app, saved_files_loads, saved_files_cleans. simpl.
  rewrite grid_value in Hin. simpl in Hin.
  repeat (apply elem_of_cons in Hin as [[= -> ->]|Hin];
          [vm_compute in He; injection He as _ _ <-; by vm_compute|]).
  by apply elem_of_nil in Hin.
Qed.

Lemma turns_saved (l : list (string * string)) turns :
  Forall (fun st => st ∈ grid) l ->
  Forall2 (turn_events w) l turns ->
  (saved_files (concat turns)).*1 =
    (fun st : string * string =>
       st.1 +:+ "/" +:+ st.1 +:+ "_task-" +:+ st.2 +:+ "_"
       +:+ (if bool_decide (st.2 ∈ ["figures"; "life"]) then "run-1_" else "")
       +:+ "space-MNI152NLin2009cAsym_desc-fwhm6_bold.nii.gz") <$> l.
Proof.
  intros Hin. induction 1 as [|st evs l turns Hst _ IH]; [reflexivity|].
  apply Forall_cons in Hin as [Hst_in Hin].
  simpl. rewrite saved_files_app, fmap_app, IH by exact Hin.
  by rewrite (turn_events_saved _ _ Hst_in Hst).
Qed.

End MainRuns.

(** [X12] On a dataset where every (subject, task) pair of the grid has what
    its turn needs (at least five BOLD files and five confound files with
    segment indices, the first five confound files readable with the eight
    columns, the first five scans cleaning to at least one volume, a
    writable output path), the main program runs to its end without an
    error and completes the 24 pairs. *)
Theorem main_completes_on_well_formed_dataset {V volume signals}
    (w : world V volume signals) :
  Forall (turn_inputs w) grid ->
  exists log, main w = (Ok tt, log) /\ printed log = grid.
Proof.
  intros Hall. rewrite main_unfold.
  destruct (for_each_intro grid (main_body w create_data_dictionary.2)) as [log Hlog].
  { pose proof grid_tasks as Ht. apply Forall_forall. intros st Hst.
    eapply Forall_forall in Ht; [|exact Hst]. eapply Forall_forall in Hall; [|exact Hst].
    by apply main_body_intro. }
  exists log. split; [exact Hlog|].
  apply for_each_ok in Hlog as (turns & -> & Hturns).
  apply (turns_printed w). eapply Forall2_impl; [exact Hturns|].
  intros st evs. apply main_body_ok.
Qed.

Lemma main_completes_on_well_formed_dataset_witness :
  exists log, main Demo.w = (Ok tt, log) /\ printed log = grid.
Proof.
  apply (main_completes_on_well_formed_dataset Demo.w).
  rewrite grid_value. simpl.
  repeat (apply Forall_cons; split;
    [unfold turn_inputs; do 6 eexists;
     split; [vm_compute; reflexivity|];
     split; [vm_compute; reflexivity|];
     split; [vm_compute; reflexivity|];
     split; [vm_compute; lia|];
     split; [vm_compute; lia|];
     split; [vm_compute; reflexivity|];
     split; [repeat constructor; discriminate|];
     reflexivity|]).
  constructor.
Defined.

(** [X13] In every run of the main program, with or without an error, the
    files written are those of the completed (subject, task) pairs, one
    each and in their order: for the pair (s, t) the file
    [{s}/{s}_task-{t}_space-MNI152NLin2009cAsym_desc-fwhm6_bold.nii.gz],
    with [run-1_] before [space-] for figures and life.  The names are
    pairwise distinct, so no output overwrites another. *)
Theorem main_writes_one_file_per_completed_pair {V volume signals}
    (w : world V volume signals) :
  (saved_files (main w).2).*1 =
    (fun st : string * string =>
       st.1 +:+ "/" +:+ st.1 +:+ "_task-" +:+ st.2 +:+ "_"
       +:+ (if bool_decide (st.2 ∈ ["figures"; "life"]) then "run-1_" else "")
       +:+ "space-MNI152NLin2009cAsym_desc-fwhm6_bold.nii.gz")
    <$> printed (main w).2 /\
  NoDup (saved_files (main w).2).*1.
Proof.
  set (name := fun st : string * string =>
       st.1 +:+ "/" +:+ st.1 +:+ "_task-" +:+ st.2 +:+ "_"
       +:+ (if bool_decide (st.2 ∈ ["figures"; "life"]) then "run-1_" else "")
       +:+ "space-MNI152NLin2009cAsym_desc-fwhm6_bold.nii.gz").
  assert (Hnd : NoDup (name <$> grid)) by (apply (bool_decide_unpack _); by vm_compute).
  assert (Hrun : exists done rest, grid = done ++ rest /\
            printed (main w).2 = done /\ (saved_files (main w).2).*1 = name <$> done).
  { rewrite main_unfold.
    destruct (for_each grid (main_body w create_data_dictionary.2))
      as [[[]|e] log] eqn:H; simpl.
    - apply for_each_ok in H as (turns & -> & Hturns).
      assert (Hall : Forall2 (turn_events w) grid turns).
      { eapply Forall2_impl; [exact Hturns|]. intros st evs. apply main_body_ok. }
      exists grid, []. split; [by rewrite app_nil_r|].
      split; [by apply (turns_printed w)|].
      apply (turns_saved w); [|exact Hall]. by apply Forall_forall.
    - apply for_each_raise in H as (done & x & rest & turns & evs & Hgrid & -> & Hdone & Hx).
      assert (Hall : Forall2 (turn_events w) done turns).
      { eapply Forall2_impl; [exact Hdone|]. intros st evs'. apply main_body_ok. }
      exists done, (x :: rest). split; [exact Hgrid|]. split.
      + rewrite printed_app, (turns_printed w _ _ Hall), (main_body_raise w _ _ _ _ Hx).
        by rewrite app_nil_r.
      + rewrite saved_files_app, (main_body_raise_saved w _ _ _ _ Hx), app_nil_r.
        apply (turns_saved w); [|exact Hall].
        apply Forall_forall. intros st Hst. rewrite Hgrid. apply elem_of_app. by left. }
  destruct Hrun as (done & rest & Hgrid & Hp & Hs). split.
  - by rewrite Hs, Hp.
  - rewrite Hs. rewrite Hgrid, fmap_app in Hnd. by apply NoDup_app in Hnd as [Hnd _].
Qed.
